(** * websocket-proxy: the PROXY-protocol connection wrapper and the backend handlers

    Shallow embedding of
    - [proxy/proxyprotocol/proxy_protocol.go] (type [Conn], [NewConn],
      [Read], [RemoteAddr], [checkPrefix]), and
    - the backend test file (the [echoHandler], the handler table of
      [TestGetHandler]),
    followed by the properties proved about them. *)

From Stdlib Require Import ZArith String Ascii List Lia Bool DecimalString.
From stdpp Require Import base gmap strings list.

Local Open Scope string_scope.
#[local] Arguments String.append !_ _ / : simpl nomatch.

(* ================================================================== *)
(** * Part I: definitions *)
(* ================================================================== *)

(** ** The Go library functions the sources call

    Go strings and byte slices are [string]s (sequences of bytes).  The
    functions below follow the documented behaviour of the Go standard
    library; they are the environment of the embedded code. *)

Module Go.

Definition LF : ascii := "010"%char.
Definition CR : ascii := "013"%char.
Definition CRLF : string := String CR (String LF "").

(** [s[:n]] for [n <= len(s)] (Go panics beyond that; the embedded code
    is shown to stay in range, see [header_slice_in_range]). *)
Fixpoint slice_to (n : nat) (s : string) : string :=
  match n, s with
  | S n', String c s' => String c (slice_to n' s')
  | _, _ => ""
  end.

(** [s[n:]] for [n <= len(s)]. *)
Fixpoint slice_from (n : nat) (s : string) : string :=
  match n, s with
  | S n', String _ s' => slice_from n' s'
  | _, _ => s
  end.

(** [bytes.Equal]. *)
Definition bytes_Equal (a b : string) : bool := String.eqb a b.

(** [strings.Split(s, sep)] for a one-byte separator: the pieces between
    the occurrences of [sep]; one more piece than there are separators. *)
Fixpoint Split (sep : ascii) (s : string) : list string :=
  match s with
  | "" => [""]
  | String c s' =>
    if Ascii.eqb c sep then "" :: Split sep s'
    else match Split sep s' with
         | f :: fs => String c f :: fs
         | [] => [String c ""]
         end
  end.

Definition is_digit (c : ascii) : bool :=
  (48 <=? nat_of_ascii c)%nat && (nat_of_ascii c <=? 57)%nat.

(** The value of a string of decimal digits; [None] on any other byte. *)
Fixpoint digits (acc : Z) (s : string) : option Z :=
  match s with
  | "" => Some acc
  | String c s' =>
    if is_digit c then digits (10 * acc + (Z.of_nat (nat_of_ascii c) - 48)) s'
    else None
  end.

Definition minInt : Z := - 2 ^ 63.
Definition maxInt : Z := 2 ^ 63 - 1.

(** [strconv.Atoi] with a 64-bit [int]: an optional sign, at least one
    digit, only digits, and a value that fits; [None] stands for the
    non-nil [*NumError]. *)
Definition Atoi (s : string) : option Z :=
  match s with
  | "" => None
  | String c s' =>
    let neg := Ascii.eqb c "-" in
    let ds := if neg || Ascii.eqb c "+" then s' else s in
    match ds with
    | "" => None
    | _ =>
      match digits 0 ds with
      | None => None
      | Some n =>
        let v := if neg then (- n)%Z else n in
        if (minInt <=? v)%Z && (v <=? maxInt)%Z then Some v else None
      end
    end
  end.

(** [strconv.Itoa]. *)
Definition Itoa (z : Z) : string := NilZero.string_of_int (Z.to_int z).

Fixpoint contains_byte (c : ascii) (s : string) : bool :=
  match s with
  | "" => false
  | String c' s' => Ascii.eqb c' c || contains_byte c s'
  end.

(** [net.JoinHostPort]. *)
Definition JoinHostPort (host port : string) : string :=
  if contains_byte ":" host then "[" ++ host ++ "]:" ++ port
  else host ++ ":" ++ port.

(** [strings.HasPrefix], [strings.HasSuffix]. *)
Fixpoint HasPrefix (s pre : string) {struct pre} : bool :=
  match pre, s with
  | "", _ => true
  | String a pre', String b s' => Ascii.eqb a b && HasPrefix s' pre'
  | String _ _, "" => false
  end.

Definition HasSuffix (s suf : string) : bool :=
  (String.length suf <=? String.length s)%nat
  && String.eqb (slice_from (String.length s - String.length suf) s) suf.

(** Concatenation of a list of byte chunks. *)
Fixpoint flatten (l : list string) : string :=
  match l with
  | [] => ""
  | s :: l' => s ++ flatten l'
  end.

(** The bytes of [s] up to and including the first [d], and what
    follows; [None] when [s] has no [d]. *)
Fixpoint cut_at (d : ascii) (s : string) : option (string * string) :=
  match s with
  | "" => None
  | String c s' =>
    if Ascii.eqb c d then Some (String c "", s')
    else match cut_at d s' with
         | Some (l, rest) => Some (String c l, rest)
         | None => None
         end
  end.

(** Go's [error] values that occur here. *)
Inductive error : Type :=
| EOF                       (* io.EOF *)
| ErrClosed                 (* use of closed network connection *)
| NetError (msg : string)   (* any other failure of the socket *)
| Errorf (msg : string).    (* fmt.Errorf *)

(** [net.TCPAddr] (the code leaves [Zone] empty) and [net.Addr]. *)
Record TCPAddr (netIP : Type) : Type := mkTCPAddr { IP : netIP; Port : Z }.
Arguments mkTCPAddr {netIP}.
Arguments IP {netIP}.
Arguments Port {netIP}.

Inductive Addr (netIP : Type) : Type :=
| AddrTCP (a : TCPAddr netIP)                (* a *net.TCPAddr *)
| AddrOther (network : string) (s : string). (* any other net.Addr *)
Arguments AddrTCP {netIP}.
Arguments AddrOther {netIP}.

(** [net.TCPAddr.String] for an address without zone. *)
Definition TCPAddr_String {netIP : Type} (IPString : netIP -> string)
    (a : TCPAddr netIP) : string :=
  JoinHostPort (IPString (IP a)) (Itoa (Port a)).

(** A [net.Conn] as [Conn] uses it.  [wire] lists the chunks that the
    successive socket reads will return, in order; once they are used up
    every read fails with [term] ([EOF] when the peer closed).  After
    [Close] every read fails with [ErrClosed].  [raddr] is what the
    socket's [RemoteAddr()] returns (a nil interface is [None]). *)
Record NetConn (netIP : Type) : Type := mkNetConn {
  wire : list string;
  term : error;
  closed : bool;
  raddr : option (Addr netIP)
}.
Arguments mkNetConn {netIP}.
Arguments wire {netIP}.
Arguments term {netIP}.
Arguments closed {netIP}.
Arguments raddr {netIP}.

Definition conn_Close {netIP} (c : NetConn netIP) : NetConn netIP :=
  mkNetConn (wire c) (term c) true (raddr c).

Definition set_wire {netIP} (c : NetConn netIP) (w : list string) : NetConn netIP :=
  mkNetConn w (term c) (closed c) (raddr c).

(** The bytes the socket will still deliver. *)
Definition stream {netIP} (c : NetConn netIP) : string :=
  if closed c then "" else flatten (wire c).

(** What a failing socket read reports. *)
Definition read_error {netIP} (c : NetConn netIP) : error :=
  if closed c then ErrClosed else term c.

(** [bufio.Reader]: the bytes read from the socket and not yet handed
    out.  The reader and [Conn.conn] are the same socket, so the
    operations take and return the [NetConn] with the reader. *)
Record Reader : Type := mkReader { buffered : string }.

(** Socket reads until [n] bytes are buffered or the socket fails. *)
Fixpoint fill_to (n : nat) (buf : string) (w : list string) : string * list string :=
  if (n <=? String.length buf)%nat then (buf, w)
  else match w with
       | [] => (buf, [])
       | s :: w' => fill_to n (buf ++ s) w'
       end.

(** [bufio.Reader.Peek(n)], [n] within the buffer size: the next [n]
    bytes without consuming them; with fewer bytes available, those and
    the read error. *)
Definition Peek {netIP} (n : nat) (r : Reader) (c : NetConn netIP)
    : string * option error * Reader * NetConn netIP :=
  let '(buf, w) :=
    if closed c then (buffered r, wire c) else fill_to n (buffered r) (wire c) in
  if (n <=? String.length buf)%nat
  then (slice_to n buf, None, mkReader buf, set_wire c w)
  else (buf, Some (read_error c), mkReader buf, set_wire c w).

(** Socket reads until the buffered bytes contain [d] or the socket
    fails; [acc] is what was scanned before. *)
Fixpoint read_until (d : ascii) (acc buf : string) (w : list string)
    : string * bool * string * list string :=
  match cut_at d buf with
  | Some (l, rest) => (acc ++ l, true, rest, w)
  | None =>
    match w with
    | [] => (acc ++ buf, false, "", [])
    | s :: w' => read_until d (acc ++ buf) s w'
    end
  end.

(** [bufio.Reader.ReadString(delim)]: the bytes up to and including
    the first [delim]; when the socket fails before one is found, the
    bytes read so far and the error. *)
Definition ReadString {netIP} (d : ascii) (r : Reader) (c : NetConn netIP)
    : string * option error * Reader * NetConn netIP :=
  if closed c then
    match cut_at d (buffered r) with
    | Some (l, rest) => (l, None, mkReader rest, c)
    | None => (buffered r, Some ErrClosed, mkReader "", c)
    end
  else
    let '(line, found, rest, w) := read_until d "" (buffered r) (wire c) in
    (line, if found then None else Some (term c), mkReader rest, set_wire c w).

(** [bufio.Reader.Read(b)] with [n = len(b)]: the bytes copied into
    [b] and the error.  An empty buffer is refilled by one socket read;
    the call hands out what is buffered, at most [n] bytes. *)
Definition bufio_Read {netIP} (n : nat) (r : Reader) (c : NetConn netIP)
    : string * option error * Reader * NetConn netIP :=
  match n with
  | 0 => ("", None, r, c)
  | _ =>
    match buffered r with
    | "" =>
      if closed c then ("", Some ErrClosed, r, c)
      else match wire c with
           | [] => ("", Some (term c), r, c)
           | s :: w => (slice_to n s, None, mkReader (slice_from n s), set_wire c w)
           end
    | buf => (slice_to n buf, None, mkReader (slice_from n buf), c)
    end
  end.

End Go.

Import Go.

(** ** Package [common] and package [backend] *)

(** Modelled from the spec: the message type of package [common], which is
    not among the sources.  "Message: { Key: string, Type: enum{Data,
    Connect, Close, Error, Ping/Pong}, Body: string }"; the code names the
    payload-carrying type [common.Body]. *)
Module common.
Inductive MessageType : Type := Body | Connect | Close | Error | PingPong.

Record Message : Type := mkMessage {
  Key : string;
  Type_ : MessageType;
  Body_ : string
}.
End common.

(** A channel as the handler sees it: the values queued for it, and
    whether the sender has closed it.  A receive on an empty channel that
    is not closed blocks. *)
Record RecvChan (A : Type) : Type := mkRecvChan {
  queued : list A;
  chanClosed : bool
}.
Arguments mkRecvChan {A}.
Arguments queued {A}.
Arguments chanClosed {A}.

(** How far a handler got: it returned, or it is blocked in a receive. *)
Inductive Progress : Type := Returned | Blocked.

(** [mockHandler] of the test file. *)
Record mockHandler : Type := mkMockHandler { hType : string }.

Section Backend.

(** The send side of the [response] channel is the list of the messages
    sent on it so far, oldest first. *)
Definition SendChan : Type := list common.Message.

(** [SignalHandlerClosed(key, response)] is not among the sources; the
    handler is embedded over any such function. *)
Variable SignalHandlerClosed : string -> SendChan -> SendChan.

(** The [for] loop of [echoHandler.Handle]: one iteration for each value
    received; it ends when the channel is closed, and blocks when the
    channel is empty and open. *)
Fixpoint echoLoop (key : string) (incoming : list string) (isClosed : bool)
    (response : SendChan) : Progress * SendChan :=
  match incoming with
  | [] => if isClosed then (Returned, response) else (Blocked, response)
  | m :: incoming' =>
    if negb (String.eqb m "") then
      let data := m ++ "-response" in
      let wrap := common.mkMessage key common.Body data in
      echoLoop key incoming' isClosed (response ++ [wrap])%list
    else echoLoop key incoming' isClosed response
  end.

(** [echoHandler.Handle] (test file, lines 130-147); the deferred
    [SignalHandlerClosed] runs when the function returns. *)
Definition Handle (key initialMessage : string) (incomingMessages : RecvChan string)
    (response : SendChan) : Progress * SendChan :=
  match echoLoop key (queued incomingMessages) (chanClosed incomingMessages) response with
  | (Returned, response') => (Returned, SignalHandlerClosed key response')
  | (Blocked, response') => (Blocked, response')
  end.

End Backend.

(** Modelled from the spec: [SignalHandlerClosed], "emit exactly one
    [Close] message for its Key". *)
Definition signalClose (key : string) (response : SendChan) : SendChan :=
  (response ++ [common.mkMessage key common.Close ""])%list.

(** Modelled from the spec: [getHandler] is not among the sources (only
    its test is).  "a request path matches a registered key K if the
    request path equals K (ignoring one optional trailing slash) or the
    request path, with one enforced trailing slash, has K (with its own
    enforced trailing slash) as a prefix"; "longest key wins";
    "Unregistered/no-match returns a not-found signal". *)
Definition dropSlash (s : string) : string :=
  if HasSuffix s "/" then slice_to (String.length s - 1) s else s.

Definition withSlash (s : string) : string :=
  if HasSuffix s "/" then s else s ++ "/".

Definition pathMatches (path key : string) : bool :=
  String.eqb (dropSlash path) (dropSlash key)
  || HasPrefix (withSlash path) (withSlash key).

Definition longer {H : Type} (best : option (string * H)) (kh : string * H)
    : option (string * H) :=
  match best with
  | Some (k, h) =>
    if (String.length k <? String.length kh.1)%nat then Some kh else best
  | None => Some kh
  end.

Definition getHandler {H : Type} (path : string) (handlers : gmap string H)
    : option H :=
  let candidates :=
    List.filter (fun kh => pathMatches path kh.1) (map_to_list handlers) in
  match fold_left longer candidates None with
  | Some (_, h) => Some h
  | None => None
  end.

(** The table of [TestGetHandler] (test file, lines 72-76). *)
Definition logKey : string := "/v1/logs/".
Definition statKey : string := "/v1/stats/".
Definition testHandlers : gmap string mockHandler :=
  <[statKey := mkMockHandler statKey]> (<[logKey := mkMockHandler logKey]> ∅).

(** [assertHandler] of the test file (lines 101-108). *)
Definition assertHandler (path expectedType : string)
    (handlers : gmap string mockHandler) : bool :=
  match getHandler path handlers with
  | Some mh => String.eqb (hType mh) expectedType
  | None => false
  end.

(** ** Package [proxyprotocol] *)

Module proxyprotocol.

(** [type ProxyProtoInfo] (lines 66-70); the two addresses are never nil
    when the code builds one. *)
Record ProxyProtoInfo (netIP : Type) : Type := mkProxyProtoInfo {
  Protocol : string;
  ClientAddr : TCPAddr netIP;
  ProxyAddr : TCPAddr netIP
}.
Arguments mkProxyProtoInfo {netIP}.
Arguments Protocol {netIP}.
Arguments ClientAddr {netIP}.
Arguments ProxyAddr {netIP}.

(** The calls a user of the connection makes, and what they return. *)
Inductive Call : Type :=
| CallRead (n : nat)      (* Read(b) with len(b) = n *)
| CallRemoteAddr.         (* RemoteAddr() *)

Inductive Reply (netIP : Type) : Type :=
| ReadReply (data : string) (err : option error)
| AddrReply (a : option (Addr netIP)).
Arguments ReadReply {netIP}.
Arguments AddrReply {netIP}.

(** How the [for] loop over the bytes of the marker ends. *)
Inductive Scan : Type :=
| ScanError (e : error)   (* Peek failed: return err *)
| ScanMismatch            (* a byte differs: return nil *)
| ScanMatch.              (* all of the marker was seen *)

Section ProxyProtocol.

(** [net.IP] with [net.ParseIP] and [net.IP.String] (a nil [net.IP] is
    [None]), and the process-wide cache behind [putInfo], which is not
    among the sources: the code is embedded over any of them. *)
Context {netIP : Type} {Cache : Type}.
Variable ParseIP : string -> option netIP.
Variable IPString : netIP -> string.
Variable putInfo : string -> ProxyProtoInfo netIP -> Cache -> Cache.

Definition prefix : string := "PROXY ".
Definition prefixLen : nat := String.length prefix.

(** [type Conn] (lines 59-64); [once] is the done flag of the
    [sync.Once]. *)
Record Conn : Type := mkConn {
  bufReader : Reader;
  conn : NetConn netIP;
  srcAddr : option (TCPAddr netIP);
  once : bool
}.

(** [NewConn] (lines 94-100). *)
Definition NewConn (c : NetConn netIP) : Conn :=
  mkConn (mkReader "") c None false.

(** [p.conn.Close()] *)
Definition closeConn (p : Conn) : Conn :=
  mkConn (bufReader p) (conn_Close (conn p)) (srcAddr p) (once p).

Definition setReader (p : Conn) (r : Reader) (c : NetConn netIP) : Conn :=
  mkConn r c (srcAddr p) (once p).

Definition setSrcAddr (p : Conn) (a : TCPAddr netIP) : Conn :=
  mkConn (bufReader p) (conn p) (Some a) (once p).

Definition setOnce (p : Conn) : Conn :=
  mkConn (bufReader p) (conn p) (srcAddr p) true.

(** The loop [for i := 1; i <= prefixLen; i++] of [checkPrefix]
    (lines 159-169), with [k] iterations to go. *)
Fixpoint scanPrefix (k i : nat) (r : Reader) (c : NetConn netIP)
    : Scan * Reader * NetConn netIP :=
  match k with
  | 0 => (ScanMatch, r, c)
  | S k' =>
    let '(inp, err, r', c') := Peek i r c in
    match err with
    | Some e => (ScanError e, r', c')
    | None =>
      if negb (bytes_Equal inp (slice_to i prefix)) then (ScanMismatch, r', c')
      else scanPrefix k' (S i) r' c'
    end
  end.

(** [checkPrefix] from "Strip the carriage return and new line" on
    (lines 178-230); [header] is the line [ReadString] returned. *)
Definition parseHeader (header : string) (p : Conn) (cache : Cache)
    : option error * Conn * Cache :=
  let header := slice_to (String.length header - 2) header in
  match Split " " header with
  | [part0; part1; part2; part3; part4; part5] =>
    if negb (String.eqb part1 "TCP4" || String.eqb part1 "TCP6") then
      (Some (Errorf ("Unhandled address type: " ++ part1)), closeConn p, cache)
    else
      match ParseIP part2 with
      | None => (Some (Errorf ("Invalid source ip: " ++ part2)), closeConn p, cache)
      | Some ip =>
        match Atoi part4 with
        | None => (Some (Errorf ("Invalid source port: " ++ part4)), closeConn p, cache)
        | Some port =>
          let p := setSrcAddr p (mkTCPAddr ip port) in
          match ParseIP part3 with
          | None =>
            (Some (Errorf ("Invalid destination ip: " ++ part3)), closeConn p, cache)
          | Some ip' =>
            match Atoi part5 with
            | None =>
              (Some (Errorf ("Invalid destination port: " ++ part5)), closeConn p, cache)
            | Some port' =>
              let destAddr := mkTCPAddr ip' port' in
              let proxyInfo := mkProxyProtoInfo part1 (mkTCPAddr ip port) destAddr in
              (None, p, putInfo (TCPAddr_String IPString (ClientAddr proxyInfo)) proxyInfo cache)
            end
          end
        end
      end
  | _ => (Some (Errorf ("Invalid header line: " ++ header)), closeConn p, cache)
  end.

(** [checkPrefix] (lines 157-231): the loop, then the header line. *)
Definition checkPrefix (p : Conn) (cache : Cache) : option error * Conn * Cache :=
  let '(scan, r, c) := scanPrefix prefixLen 1 (bufReader p) (conn p) in
  let p := setReader p r c in
  match scan with
  | ScanError e => (Some e, p, cache)
  | ScanMismatch => (None, p, cache)
  | ScanMatch =>
    let '(header, err, r, c) := ReadString LF (bufReader p) (conn p) in
    let p := setReader p r c in
    match err with
    | Some e => (Some e, closeConn p, cache)
    | None => parseHeader header p cache
    end
  end.

(** [p.once.Do(func() { err = p.checkPrefix() })]: [err] stays nil when
    the check has run before. *)
Definition onceCheckPrefix (p : Conn) (cache : Cache) : option error * Conn * Cache :=
  if once p then (None, p, cache)
  else let '(err, p', cache') := checkPrefix p cache in (err, setOnce p', cache').

(** [Read(b)] (lines 105-112), [n = len(b)]: the bytes stored in [b] and
    the error. *)
Definition Read (n : nat) (p : Conn) (cache : Cache)
    : string * option error * Conn * Cache :=
  let '(err, p, cache) := onceCheckPrefix p cache in
  match err with
  | Some e => ("", Some e, p, cache)
  | None =>
    let '(data, err, r, c) := bufio_Read n (bufReader p) (conn p) in
    (data, err, setReader p r c, cache)
  end.

(** [RemoteAddr()] (lines 133-143); the warning it logs is not part of
    the state. *)
Definition RemoteAddr (p : Conn) (cache : Cache) : option (Addr netIP) * Conn * Cache :=
  let '(_, p, cache) := onceCheckPrefix p cache in
  match srcAddr p with
  | Some a => (Some (AddrTCP a), p, cache)
  | None => (raddr (conn p), p, cache)
  end.

(** One call, and a sequence of calls, on a connection. *)
Definition call (c : Call) (p : Conn) (cache : Cache) : Reply netIP * Conn * Cache :=
  match c with
  | CallRead n =>
    let '(data, err, p', cache') := Read n p cache in (ReadReply data err, p', cache')
  | CallRemoteAddr =>
    let '(a, p', cache') := RemoteAddr p cache in (AddrReply a, p', cache')
  end.

Fixpoint run (cs : list Call) (p : Conn) (cache : Cache)
    : list (Reply netIP) * Conn * Cache :=
  match cs with
  | [] => ([], p, cache)
  | c :: cs' =>
    let '(rep, p', cache') := call c p cache in
    let '(reps, p'', cache'') := run cs' p' cache' in
    (rep :: reps, p'', cache'')
  end.

(** The bytes the connection has still to hand out: those buffered and
    those the socket will still deliver. *)
Definition pending (p : Conn) : string :=
  buffered (bufReader p) ++ stream (conn p).

(** The address [RemoteAddr] reports once the check has run. *)
Definition reported (p : Conn) : option (Addr netIP) :=
  match srcAddr p with
  | Some a => Some (AddrTCP a)
  | None => raddr (conn p)
  end.

(** The bytes that the [Read] calls among the replies handed out. *)
Fixpoint delivered (reps : list (Reply netIP)) : string :=
  match reps with
  | [] => ""
  | ReadReply data _ :: reps' => data ++ delivered reps'
  | AddrReply _ :: reps' => delivered reps'
  end.

(** A call once the check is out of the way: [Read] is the buffered
    reader's [Read], [RemoteAddr] a lookup. *)
Definition plainCall (c : Call) (p : Conn) : Reply netIP * Conn :=
  match c with
  | CallRead n =>
    let '(data, err, r, c) := bufio_Read n (bufReader p) (conn p) in
    (ReadReply data err, setReader p r c)
  | CallRemoteAddr => (AddrReply (reported p), p)
  end.

Fixpoint plainRun (cs : list Call) (p : Conn) : list (Reply netIP) * Conn :=
  match cs with
  | [] => ([], p)
  | c :: cs' =>
    let '(rep, p') := plainCall c p in
    let '(reps, p'') := plainRun cs' p' in
    (rep :: reps, p'')
  end.

End ProxyProtocol.

End proxyprotocol.

Import proxyprotocol.

(** ** A concrete environment, for running the code on examples *)

(** [net.ParseIP] on dotted-decimal input: four fields, each a decimal
    number of at most 255 without leading zero.  (The colon forms of IPv6
    are not covered; the theorems hold for any [ParseIP].) *)
Definition IPv4 : Type := (Z * Z * Z * Z)%type.

Definition octet (f : string) : option Z :=
  match f with
  | "" => None
  | String c f' =>
    if Ascii.eqb c "0" && negb (String.eqb f' "") then None
    else match digits 0 f with
         | Some n => if (n <=? 255)%Z then Some n else None
         | None => None
         end
  end.

Definition parseIPv4 (s : string) : option IPv4 :=
  match Split "." s with
  | [a; b; c; d] =>
    match octet a, octet b, octet c, octet d with
    | Some a, Some b, Some c, Some d => Some (a, b, c, d)
    | _, _, _, _ => None
    end
  | _ => None
  end.

Definition IPv4_String (ip : IPv4) : string :=
  let '(a, b, c, d) := ip in
  Itoa a ++ "." ++ Itoa b ++ "." ++ Itoa c ++ "." ++ Itoa d.

(** Modelled from the spec: [putInfo] and the cache behind it, "stored in
    the process-wide cache keyed by the source address's string form",
    "unbounded map keyed by client address string". *)
Definition putInfoMap (key : string) (info : ProxyProtoInfo IPv4)
    (cache : gmap string (ProxyProtoInfo IPv4)) : gmap string (ProxyProtoInfo IPv4) :=
  <[key := info]> cache.

(** A socket whose peer is 10.0.0.9:4711 and that delivers [chunks] and
    then end of file. *)
Definition lbAddr : Addr IPv4 := AddrTCP (mkTCPAddr (10, 0, 0, 9)%Z 4711%Z).

Definition socket (chunks : list string) : NetConn IPv4 :=
  mkNetConn chunks EOF false (Some lbAddr).

Definition clientAddr : TCPAddr IPv4 := mkTCPAddr (192, 168, 1, 7)%Z 56324%Z.

Definition goodHeader : string := "PROXY TCP4 192.168.1.7 10.0.0.1 56324 443".
Definition fiveFields : string := "PROXY TCP4 192.168.1.7 10.0.0.1 56324".
Definition badDestIP : string := "PROXY TCP4 192.168.1.7 10.0.0.300 56324 443".

(** A proxied connection, its header and payload arriving in pieces. *)
Definition proxiedSocket : NetConn IPv4 :=
  socket ["PRO"; "XY TCP4 192.168.1.7 10.0.0.1 56"; "324 443" ++ CRLF ++ "GET /"; " HTTP/1.1"].

(** A direct connection. *)
Definition directSocket : NetConn IPv4 := socket ["GET / HT"; "TP/1.1"].

(** A peer that sends three bytes and closes. *)
Definition truncatedSocket : NetConn IPv4 := socket ["PRO"].

Definition fiveFieldsSocket : NetConn IPv4 := socket [fiveFields ++ CRLF ++ "GET /"].
Definition badDestSocket : NetConn IPv4 := socket [badDestIP ++ CRLF; "GET /"].

(** The good header ended by a line feed alone. *)
Definition bareLFSocket : NetConn IPv4 := socket [goodHeader ++ String LF "GET /"].

(** ** Notions used in the statements *)

(** [plain s]: no space and no line feed in [s], as in a field of a
    header line. *)
Definition plain (s : string) : Prop :=
  contains_byte " " s = false /\ contains_byte LF s = false.

(** What the echo handler answers to the bodies [msgs], in order: one
    message for each body that is not empty. *)
Definition echoResponses (key : string) (msgs : list string) : list common.Message :=
  List.map (fun m => common.mkMessage key common.Body (m ++ "-response"))
           (List.filter (fun m => negb (String.eqb m "")) msgs).

(** The header line of PROXY protocol version 1, without its line end. *)
Definition headerLine (proto src dst sport dport : string) : string :=
  "PROXY " ++ proto ++ " " ++ src ++ " " ++ dst ++ " " ++ sport ++ " " ++ dport.

(** What the loop over the marker decides, read off the bytes [s] that the
    connection has still to hand out; [e] is the socket's read error. *)
Fixpoint scanStream (k i : nat) (s : string) (e : error) : Scan :=
  match k with
  | 0 => ScanMatch
  | S k' =>
    if (i <=? String.length s)%nat then
      if negb (bytes_Equal (slice_to i s) (slice_to i prefix)) then ScanMismatch
      else scanStream k' (S i) s e
    else ScanError e
  end.

(** Some byte among the first six of [s] differs from the marker. *)
Definition differsFromMarker (s : string) : Prop :=
  exists j, 1 <= j <= prefixLen /\ j <= String.length s
            /\ slice_to j s <> slice_to j prefix.

Section Notions.

Context {netIP : Type}.

(** Two states of one socket that differ at most in what is left on
    the wire. *)
Definition sameSocket (c c' : NetConn netIP) : Prop :=
  term c' = term c /\ closed c' = closed c /\ raddr c' = raddr c.

(** Two states of one connection that differ at most in the bytes
    buffered and left on the wire. *)
Definition sameConn (p p' : @Conn netIP) : Prop :=
  sameSocket (conn p) (conn p') /\ srcAddr p' = srcAddr p /\ once p' = once p.

Variable ParseIP : string -> option netIP.

(** The fields of a header line that [checkPrefix] rejects: not six of
    them, an unknown protocol token, an address that does not parse or a
    port that is not a number. *)
Definition malformed (fields : list string) : Prop :=
  length fields <> 6
  \/ (nth 1 fields "" <> "TCP4" /\ nth 1 fields "" <> "TCP6")
  \/ ParseIP (nth 2 fields "") = None
  \/ ParseIP (nth 3 fields "") = None
  \/ Atoi (nth 4 fields "") = None
  \/ Atoi (nth 5 fields "") = None.

(** The same, for the failures that come before the source address is
    stored. *)
Definition malformedSource (fields : list string) : Prop :=
  length fields <> 6
  \/ (nth 1 fields "" <> "TCP4" /\ nth 1 fields "" <> "TCP6")
  \/ ParseIP (nth 2 fields "") = None
  \/ Atoi (nth 4 fields "") = None.

End Notions.

(** ** The rest of the connection's interface, and the listener *)

Module connapi.

Section ConnAPI.

Context {netIP : Type} {Cache : Type}.
Variable ParseIP : string -> option netIP.
Variable IPString : netIP -> string.
Variable putInfo : string -> ProxyProtoInfo netIP -> Cache -> Cache.

(** [Conn.Close] (lines 118-120): the result of [p.conn.Close()], which
    is an error on a socket that is closed already. *)
Definition Close (p : @Conn netIP) : option error * @Conn netIP :=
  (if closed (conn p) then Some ErrClosed else None, closeConn p).

(** The operations on a connection: the two calls that run the check,
    and [Close]. *)
Inductive Op : Type :=
| OpCall (k : Call)
| OpClose.

Inductive OpReply : Type :=
| CallReply (r : Reply netIP)
| CloseReply (err : option error).

Definition op (o : Op) (p : @Conn netIP) (cache : Cache)
    : OpReply * @Conn netIP * Cache :=
  match o with
  | OpCall k =>
    let '(r, p', cache') := call ParseIP IPString putInfo k p cache in
    (CallReply r, p', cache')
  | OpClose =>
    let '(err, p') := Close p in (CloseReply err, p', cache)
  end.

Fixpoint runOps (os : list Op) (p : @Conn netIP) (cache : Cache)
    : list OpReply * @Conn netIP * Cache :=
  match os with
  | [] => ([], p, cache)
  | o :: os' =>
    let '(rep, p', cache') := op o p cache in
    let '(reps, p'', cache'') := runOps os' p' cache' in
    (rep :: reps, p'', cache'')
  end.

(** A [net.Listener]: what its successive [Accept] calls return, in
    order, and the error it returns once they are used up. *)
Record NetListener : Type := mkNetListener {
  incoming : list (NetConn netIP + error);
  lerr : error
}.

Definition net_Accept (l : NetListener) : (NetConn netIP + error) * NetListener :=
  match incoming l with
  | [] => (inr (lerr l), l)
  | r :: rest => (r, mkNetListener rest (lerr l))
  end.

(** [type Listener] (lines 52-54) and [Listener.Accept] (lines 73-80):
    the connection (nil is [None]), the error, and the listener
    afterwards. *)
Record Listener : Type := mkListener { Listener_ : NetListener }.

Definition Accept (p : Listener) : option (@Conn netIP) * option error * Listener :=
  let '(res, l) := net_Accept (Listener_ p) in
  match res with
  | inr err => (None, Some err, mkListener l)
  | inl conn => (Some (NewConn conn), None, mkListener l)
  end.

End ConnAPI.

End connapi.

Import connapi.

(** A listener that hands over the proxied connection, then fails once,
    and is closed after that. *)
Definition exampleListener : @Listener IPv4 :=
  mkListener (mkNetListener [inl proxiedSocket; inr (NetError "accept: too many open files")]
                            ErrClosed).

(** [s] is the beginning of the marker, and not all of it. *)
Definition properPrefixOfMarker (s : string) : Prop :=
  String.length s < prefixLen /\ HasPrefix prefix s = true.

(** The bodies the echo handler answers. *)
Definition nonEmpty (msgs : list string) : list string :=
  List.filter (fun m => negb (String.eqb m "")) msgs.

(* ================================================================== *)
(** * Part II: properties *)
(* ================================================================== *)

(** ** Strings *)

Lemma str_app_nil_r (s : string) : s ++ "" = s.
Proof. induction s as [|c s IH]; simpl; [reflexivity | now rewrite IH]. Qed.

Lemma str_app_assoc (a b c : string) : (a ++ b) ++ c = a ++ (b ++ c).
Proof. induction a as [|x a IH]; simpl; [reflexivity | now rewrite IH]. Qed.

Lemma str_length_app (a b : string) :
  String.length (a ++ b) = String.length a + String.length b.
Proof. induction a as [|x a IH]; simpl; [reflexivity | now rewrite IH]. Qed.

Lemma slice_to_from (n : nat) (s : string) : slice_to n s ++ slice_from n s = s.
Proof.
  revert s; induction n as [|n IH]; intros [|c s]; simpl; try reflexivity.
  now rewrite IH.
Qed.

Lemma slice_to_app (a b : string) : slice_to (String.length a) (a ++ b) = a.
Proof. induction a as [|x a IH]; simpl; [now destruct b | now rewrite IH]. Qed.

Lemma slice_to_app_le (n : nat) (a b : string) :
  n <= String.length a -> slice_to n (a ++ b) = slice_to n a.
Proof.
  revert a; induction n as [|n IH]; intros [|x a] H; simpl in *; try reflexivity; try lia.
  rewrite IH by lia. reflexivity.
Qed.

Lemma HasPrefix_app (pre rest : string) : HasPrefix (pre ++ rest) pre = true.
Proof.
  induction pre as [|a pre IH]; simpl; [reflexivity |].
  now rewrite Ascii.eqb_refl, IH.
Qed.

Lemma HasPrefix_inv (s pre : string) :
  HasPrefix s pre = true -> exists rest, s = pre ++ rest.
Proof.
  revert s; induction pre as [|a pre IH]; intros s H; simpl in *.
  - now exists s.
  - destruct s as [|b s]; [discriminate |].
    apply andb_true_iff in H as [Hab Hs]. apply Ascii.eqb_eq in Hab as ->.
    destruct (IH _ Hs) as [rest ->]. now exists rest.
Qed.

Lemma contains_byte_app (c : ascii) (a b : string) :
  contains_byte c (a ++ b) = contains_byte c a || contains_byte c b.
Proof.
  induction a as [|x a IH]; simpl; [reflexivity |].
  now rewrite IH, orb_assoc.
Qed.

Lemma cut_at_none (d : ascii) (s : string) :
  contains_byte d s = false -> cut_at d s = None.
Proof.
  induction s as [|c s IH]; simpl; [reflexivity |].
  intros H. apply orb_false_iff in H as [Hc Hs].
  now rewrite Hc, (IH Hs).
Qed.

Lemma cut_at_app (d : ascii) (a b : string) :
  cut_at d (a ++ b) =
  match cut_at d a with
  | Some (l, rest) => Some (l, rest ++ b)
  | None =>
    match cut_at d b with
    | Some (l, rest) => Some (a ++ l, rest)
    | None => None
    end
  end.
Proof.
  induction a as [|c a IH]; simpl.
  - now destruct (cut_at d b) as [[l rest]|].
  - destruct (Ascii.eqb c d); [reflexivity |].
    rewrite IH. destruct (cut_at d a) as [[l rest]|]; [reflexivity |].
    now destruct (cut_at d b) as [[l rest]|].
Qed.

Lemma cut_at_line (d : ascii) (line rest : string) :
  contains_byte d line = false ->
  cut_at d (line ++ String d rest) = Some (line ++ String d "", rest).
Proof.
  intros H. rewrite cut_at_app, (cut_at_none _ _ H). simpl.
  now rewrite Ascii.eqb_refl.
Qed.

Lemma cut_at_some (d : ascii) (s l rest : string) :
  cut_at d s = Some (l, rest) ->
  s = l ++ rest /\ exists l', l = l' ++ String d "" /\ contains_byte d l' = false.
Proof.
  revert l rest; induction s as [|c s IH]; simpl; intros l rest H; [discriminate |].
  destruct (Ascii.eqb c d) eqn:Hc.
  - apply Ascii.eqb_eq in Hc as ->. injection H as <- <-.
    split; [reflexivity |]. now exists "".
  - destruct (cut_at d s) as [[l0 rest0]|]; [|discriminate].
    injection H as <- <-. destruct (IH _ _ eq_refl) as [-> [l' [-> Hl']]].
    split; [reflexivity |]. exists (String c l'). split; [reflexivity |].
    simpl. now rewrite Hc.
Qed.

(** [Split] on a separator-free field followed by the separator. *)
Lemma Split_plain (sep : ascii) (s : string) :
  contains_byte sep s = false -> Split sep s = [s].
Proof.
  induction s as [|c s IH]; simpl; [reflexivity |].
  intros H. apply orb_false_iff in H as [Hc Hs].
  now rewrite Hc, (IH Hs).
Qed.

Lemma Split_cons (sep : ascii) (f s : string) :
  contains_byte sep f = false ->
  Split sep (f ++ String sep s) = f :: Split sep s.
Proof.
  induction f as [|c f IH]; simpl; intros H.
  - now rewrite Ascii.eqb_refl.
  - apply orb_false_iff in H as [Hc Hf]. now rewrite Hc, (IH Hf).
Qed.

(** ** The buffered reader, in terms of the byte stream *)

Section Bufio.

Context {netIP : Type}.
Implicit Types (c : NetConn netIP) (r : Reader).

Lemma sameSocket_refl c : sameSocket c c.
Proof. now repeat split. Qed.

Lemma sameSocket_trans c1 c2 c3 :
  sameSocket c1 c2 -> sameSocket c2 c3 -> sameSocket c1 c3.
Proof. unfold sameSocket. intros (-> & -> & ->) (-> & -> & ->). now repeat split. Qed.

Lemma sameSocket_set_wire c w : sameSocket c (set_wire c w).
Proof. now repeat split. Qed.

Lemma sameSocket_read_error c c' : sameSocket c c' -> read_error c' = read_error c.
Proof. unfold read_error. now intros (-> & -> & _). Qed.

Lemma fill_to_spec n buf w buf' w' :
  fill_to n buf w = (buf', w') ->
  buf' ++ flatten w' = buf ++ flatten w
  /\ (String.length buf' < n -> w' = []).
Proof.
  revert buf; induction w as [|s w IH]; intros buf; simpl.
  - destruct (n <=? String.length buf)%nat; intros [= <- <-]; auto.
  - destruct (n <=? String.length buf)%nat eqn:Hn.
    + intros [= <- <-]. apply Nat.leb_le in Hn. split; [reflexivity | lia].
    + intros H. apply IH in H as [H1 H2]. rewrite H1, str_app_assoc. auto.
Qed.

Theorem Peek_spec n r c inp err r' c' :
  Peek n r c = (inp, err, r', c') ->
  let s := buffered r ++ stream c in
  buffered r' ++ stream c' = s
  /\ sameSocket c c'
  /\ (n <= String.length s ->
      inp = slice_to n s /\ err = None /\ n <= String.length (buffered r'))
  /\ (String.length s < n -> err = Some (read_error c)).
Proof.
  unfold Peek, stream. destruct (closed c) eqn:Hc.
  - destruct (n <=? String.length (buffered r))%nat eqn:Hn;
      intros [= <- <- <- <-]; simpl; rewrite Hc, !str_app_nil_r;
      (apply Nat.leb_le in Hn || apply Nat.leb_gt in Hn);
      repeat split; try reflexivity; try lia; try (destruct c; reflexivity).
  - destruct (fill_to n (buffered r) (wire c)) as [buf w] eqn:Hf.
    apply fill_to_spec in Hf as [H1 H2].
    destruct (n <=? String.length buf)%nat eqn:Hn;
      intros [= <- <- <- <-]; simpl; rewrite Hc, <- H1.
    + apply Nat.leb_le in Hn.
      repeat split; try reflexivity; try assumption;
        try (rewrite str_length_app; lia).
      now rewrite slice_to_app_le.
    + apply Nat.leb_gt in Hn. rewrite (H2 Hn). simpl. rewrite str_app_nil_r.
      unfold read_error. rewrite Hc.
      repeat split; try reflexivity; lia.
Qed.

Lemma read_until_spec d acc buf w line found rest w' :
  read_until d acc buf w = (line, found, rest, w') ->
  match cut_at d (buf ++ flatten w) with
  | Some (l, rs) => line = acc ++ l /\ found = true /\ rest ++ flatten w' = rs
  | None => line = acc ++ buf ++ flatten w /\ found = false /\ rest ++ flatten w' = ""
  end.
Proof.
  revert acc buf; induction w as [|s w IH]; intros acc buf; simpl;
    rewrite cut_at_app; destruct (cut_at d buf) as [[l rs]|] eqn:Hb.
  - intros [= <- <- <- <-]. simpl. auto.
  - intros [= <- <- <- <-]. simpl. now rewrite !str_app_nil_r.
  - intros [= <- <- <- <-]. auto.
  - intros H. apply IH in H.
    destruct (cut_at d (s ++ flatten w)) as [[l rs]|];
      destruct H as (-> & -> & Hrest); rewrite ?str_app_assoc; auto.
Qed.

Theorem ReadString_spec d r c line err r' c' :
  ReadString d r c = (line, err, r', c') ->
  let s := buffered r ++ stream c in
  sameSocket c c'
  /\ match cut_at d s with
     | Some (l, rest) => line = l /\ err = None /\ buffered r' ++ stream c' = rest
     | None => line = s /\ err = Some (read_error c) /\ buffered r' ++ stream c' = ""
     end.
Proof.
  unfold ReadString, stream, read_error. destruct (closed c) eqn:Hc.
  - rewrite str_app_nil_r.
    destruct (cut_at d (buffered r)) as [[l rest]|];
      intros [= <- <- <- <-]; simpl; rewrite Hc, ?str_app_nil_r;
      (split; [apply sameSocket_refl | auto]).
  - destruct (read_until d "" (buffered r) (wire c)) as [[[ln found] rest] w] eqn:Hr.
    apply read_until_spec in Hr. intros [= <- <- <- <-]. simpl. rewrite Hc.
    split; [apply sameSocket_set_wire |].
    destruct (cut_at d (buffered r ++ flatten (wire c))) as [[l rs]|];
      destruct Hr as (-> & -> & Hrest); auto.
Qed.

Theorem bufio_Read_spec n r c data err r' c' :
  bufio_Read n r c = (data, err, r', c') ->
  let s := buffered r ++ stream c in
  sameSocket c c'
  /\ data ++ (buffered r' ++ stream c') = s
  /\ (forall e, err = Some e -> e = read_error c /\ data = "" /\ buffered r = "")
  /\ (0 < n -> buffered r <> "" -> data <> "").
Proof.
  unfold bufio_Read, stream, read_error. destruct n as [|n].
  { intros [= <- <- <- <-]. repeat split; try apply sameSocket_refl; try discriminate; lia. }
  destruct (buffered r) as [|b buf] eqn:Hb.
  - destruct (closed c) eqn:Hc.
    { intros [= <- <- <- <-]. rewrite Hb, Hc.
      split; [apply sameSocket_refl |]. repeat split; try congruence. }
    destruct (wire c) as [|s w] eqn:Hw.
    { intros [= <- <- <- <-]. rewrite Hb, Hc, Hw.
      split; [apply sameSocket_refl |]. repeat split; try congruence. }
    intros [= <- <- <- <-]. cbn [buffered closed set_wire wire]. rewrite Hc.
    split; [apply sameSocket_set_wire |].
    pose proof (slice_to_from (S n) s) as Hs. simpl in Hs |- *.
    rewrite <- str_app_assoc, Hs.
    repeat split; try discriminate; try congruence.
  - intros [= <- <- <- <-]. cbn [buffered].
    split; [apply sameSocket_refl |].
    pose proof (slice_to_from n buf) as Hs. simpl.
    rewrite <- str_app_assoc, Hs.
    repeat split; try discriminate.
Qed.

End Bufio.

(** ** The loop over the marker *)

Lemma scanStream_match (s : string) (e : error) :
  HasPrefix s prefix = true -> scanStream prefixLen 1 s e = ScanMatch.
Proof.
  intros H. apply HasPrefix_inv in H as [rest ->]. reflexivity.
Qed.

Lemma scanStream_last (k i : nat) (s : string) (e : error) :
  scanStream (S k) i s e = ScanMatch ->
  i + k <= String.length s /\ slice_to (i + k) s = slice_to (i + k) prefix.
Proof.
  revert i; induction k as [|k IH]; intros i; cbn [scanStream].
  - destruct (i <=? String.length s)%nat eqn:Hi; [|discriminate].
    apply Nat.leb_le in Hi. unfold bytes_Equal.
    destruct (String.eqb_spec (slice_to i s) (slice_to i prefix)) as [E|E];
      [|discriminate].
    intros _. rewrite Nat.add_0_r. auto.
  - destruct (i <=? String.length s)%nat; [|discriminate].
    destruct (negb _); [discriminate |].
    intros H. apply IH in H. now rewrite <- Nat.add_succ_comm.
Qed.

Lemma scanStream_match_inv (s : string) (e : error) :
  scanStream prefixLen 1 s e = ScanMatch -> HasPrefix s prefix = true.
Proof.
  intros H. apply (scanStream_last 5 1) in H as [_ H].
  change (slice_to (1 + 5) prefix) with prefix in H.
  rewrite <- (slice_to_from (1 + 5) s), H. apply HasPrefix_app.
Qed.

Lemma scanStream_mismatch_from (k i j : nat) (s : string) (e : error) :
  i <= j < i + k -> j <= String.length s ->
  slice_to j s <> slice_to j prefix ->
  scanStream k i s e = ScanMismatch.
Proof.
  revert i; induction k as [|k IH]; intros i Hj Hlen Hne; [lia |].
  cbn [scanStream].
  destruct (i <=? String.length s)%nat eqn:Hi; [|apply Nat.leb_gt in Hi; lia].
  unfold bytes_Equal.
  destruct (String.eqb_spec (slice_to i s) (slice_to i prefix)) as [E|E];
    [|reflexivity].
  cbn [negb]. apply IH; auto.
  destruct (Nat.eq_dec i j) as [->|]; [contradiction | lia].
Qed.

Lemma scanStream_mismatch (s : string) (e : error) :
  differsFromMarker s -> scanStream prefixLen 1 s e = ScanMismatch.
Proof.
  intros (j & Hj & Hlen & Hne).
  apply (scanStream_mismatch_from _ _ j); auto. lia.
Qed.

(** ** [checkPrefix], in terms of the byte stream *)

Section ConnProofs.

Context {netIP Cache : Type}.
Variable ParseIP : string -> option netIP.
Variable IPString : netIP -> string.
Variable putInfo : string -> ProxyProtoInfo netIP -> Cache -> Cache.
Implicit Types (p : @Conn netIP) (cache : Cache) (c : NetConn netIP).

#[local] Abbreviation parseHeader := (parseHeader ParseIP IPString putInfo).
#[local] Abbreviation checkPrefix := (checkPrefix ParseIP IPString putInfo).
#[local] Abbreviation onceCheckPrefix := (onceCheckPrefix ParseIP IPString putInfo).
#[local] Abbreviation Read := (Read ParseIP IPString putInfo).
#[local] Abbreviation RemoteAddr := (RemoteAddr ParseIP IPString putInfo).
#[local] Abbreviation call := (call ParseIP IPString putInfo).
#[local] Abbreviation run := (run ParseIP IPString putInfo).

Lemma sameConn_refl p : sameConn p p.
Proof. split; [apply sameSocket_refl | auto]. Qed.

Lemma sameConn_trans p1 p2 p3 : sameConn p1 p2 -> sameConn p2 p3 -> sameConn p1 p3.
Proof.
  intros (H1 & E1 & E2) (H2 & E3 & E4).
  split; [eapply sameSocket_trans; eauto | split; congruence].
Qed.

Lemma sameConn_reported p p' : sameConn p p' -> reported p' = reported p.
Proof. unfold reported. now intros ((_ & _ & ->) & -> & _). Qed.

Lemma sameConn_setReader p r c : sameSocket (conn p) c -> sameConn p (setReader p r c).
Proof. intros H. now split. Qed.

Lemma scanPrefix_spec k i r c sc r' c' :
  scanPrefix k i r c = (sc, r', c') ->
  sc = scanStream k i (buffered r ++ stream c) (read_error c)
  /\ buffered r' ++ stream c' = buffered r ++ stream c
  /\ sameSocket c c'
  /\ (sc = ScanMismatch -> i <= String.length (buffered r')).
Proof.
  revert i r c; induction k as [|k IH]; intros i r c; cbn [scanPrefix scanStream].
  - intros [= <- <- <-]. split; [reflexivity |]. split; [reflexivity |].
    split; [apply sameSocket_refl | discriminate].
  - destruct (Peek i r c) as [[[inp err] r1] c1] eqn:HP.
    apply Peek_spec in HP as (Hs & Hsock & Hok & Hfail).
    destruct (i <=? String.length (buffered r ++ stream c))%nat eqn:Hi.
    + apply Nat.leb_le in Hi. destruct (Hok Hi) as (-> & -> & Hbuf).
      destruct (negb _).
      * intros [= <- <- <-]. auto.
      * intros H. apply IH in H as (-> & H2 & H3 & H4).
        rewrite Hs, (sameSocket_read_error _ _ Hsock) in *.
        split; [reflexivity |].
        split; [congruence |].
        split; [eapply sameSocket_trans; eauto |].
        intros E. specialize (H4 E). lia.
    + apply Nat.leb_gt in Hi. rewrite (Hfail Hi). intros [= <- <- <-].
      split; [reflexivity |]. split; [assumption |].
      split; [assumption | discriminate].
Qed.

(** What [parseHeader] leaves alone. *)
Lemma parseHeader_frame header p cache err p' cache' :
  parseHeader header p cache = (err, p', cache') ->
  bufReader p' = bufReader p
  /\ wire (conn p') = wire (conn p)
  /\ term (conn p') = term (conn p)
  /\ raddr (conn p') = raddr (conn p)
  /\ once p' = once p
  /\ (err = None -> closed (conn p') = closed (conn p))
  /\ (forall e, err = Some e -> closed (conn p') = true /\ cache' = cache).
Proof.
  unfold proxyprotocol.parseHeader. intros H.
  repeat case_match; simplify_eq; cbn; repeat split; auto; intros; discriminate.
Qed.

(** The check, read off the bytes the connection has still to hand out. *)
Theorem checkPrefix_stream p cache :
  exists p1, sameConn p p1 /\
    match scanStream prefixLen 1 (pending p) (read_error (conn p)) with
    | ScanError e => checkPrefix p cache = (Some e, p1, cache) /\ pending p1 = pending p
    | ScanMismatch =>
      checkPrefix p cache = (None, p1, cache) /\ pending p1 = pending p
      /\ buffered (bufReader p1) <> ""
    | ScanMatch =>
      match cut_at LF (pending p) with
      | None =>
        checkPrefix p cache = (Some (read_error (conn p)), closeConn p1, cache)
        /\ pending p1 = ""
      | Some (line, rest) =>
        checkPrefix p cache = parseHeader line p1 cache /\ pending p1 = rest
      end
    end.
Proof.
  unfold proxyprotocol.checkPrefix, pending.
  destruct (scanPrefix prefixLen 1 (bufReader p) (conn p)) as [[sc r] c] eqn:Hscan.
  apply scanPrefix_spec in Hscan as (Hsc & Hs & Hsock & Hbuf).
  rewrite <- Hs, <- (sameSocket_read_error _ _ Hsock) in Hsc |- *.
  rewrite <- Hsc. clear Hsc. destruct sc.
  - exists (setReader p r c). split; [now apply sameConn_setReader | auto].
  - exists (setReader p r c). split; [now apply sameConn_setReader |].
    repeat split; auto. cbn [setReader bufReader].
    specialize (Hbuf eq_refl). destruct (buffered r); [simpl in Hbuf; lia | discriminate].
  - cbn [bufReader conn setReader].
    destruct (ReadString LF r c) as [[[line err] r2] c2] eqn:HR.
    apply ReadString_spec in HR as (Hsock2 & HR).
    exists (setReader p r2 c2).
    split; [apply sameConn_setReader; eapply sameSocket_trans; eauto |].
    destruct (cut_at LF (buffered r ++ stream c)) as [[l rest]|].
    + destruct HR as (-> & -> & Hrest). auto.
    + destruct HR as (-> & -> & Hrest). auto.
Qed.

(** ** The header line *)

Lemma strip_two (h : string) (x y : ascii) :
  let line := h ++ String x (String y "") in
  slice_to (String.length line - 2) line = h.
Proof.
  cbv zeta. rewrite str_length_app. cbn [String.length].
  replace (String.length h + 2 - 2) with (String.length h) by lia.
  apply slice_to_app.
Qed.

Lemma header_fields (proto src dst sport dport : string) :
  plain proto -> plain src -> plain dst -> plain sport -> plain dport ->
  Split " " (headerLine proto src dst sport dport)
  = ["PROXY"; proto; src; dst; sport; dport].
Proof.
  intros [H1 _] [H2 _] [H3 _] [H4 _] [H5 _]. unfold headerLine.
  change ("PROXY " ++ ?s) with ("PROXY" ++ String " " s).
  rewrite Split_cons by reflexivity.
  repeat match goal with
         | |- context [" " ++ ?s] => change (" " ++ s) with (String " " s)
         end.
  rewrite !Split_cons by assumption.
  now rewrite Split_plain.
Qed.

Lemma header_no_LF (proto src dst sport dport : string) :
  plain proto -> plain src -> plain dst -> plain sport -> plain dport ->
  contains_byte LF (headerLine proto src dst sport dport) = false.
Proof.
  intros [_ H1] [_ H2] [_ H3] [_ H4] [_ H5]. unfold headerLine.
  rewrite !contains_byte_app, H1, H2, H3, H4, H5. reflexivity.
Qed.

Lemma digits_plain (s : string) (acc n : Z) : digits acc s = Some n -> plain s.
Proof.
  revert acc; induction s as [|c s IH]; intros acc; cbn [digits].
  - now split.
  - destruct (is_digit c) eqn:Hc; [|discriminate].
    intros H. apply IH in H as [H1 H2]. unfold plain. cbn [contains_byte].
    rewrite H1, H2.
    unfold is_digit in Hc. apply andb_true_iff in Hc as [Hlo Hhi].
    apply Nat.leb_le in Hlo, Hhi.
    split; apply orb_false_iff; (split; [|reflexivity]);
      apply Ascii.eqb_neq; intros ->; vm_compute in Hlo, Hhi; lia.
Qed.

(** A string that [Atoi] accepts has neither a space nor a line feed. *)
Lemma Atoi_plain (s : string) (n : Z) : Atoi s = Some n -> plain s.
Proof.
  unfold Atoi. destruct s as [|c s]; [discriminate |].
  destruct (Ascii.eqb c "-" || Ascii.eqb c "+") eqn:Hsign.
  - destruct s as [|c' s]; [discriminate |].
    destruct (digits 0 (String c' s)) as [m|] eqn:Hd; [|discriminate].
    intros _. apply digits_plain in Hd as [H1 H2].
    unfold plain. cbn [contains_byte] in *. rewrite H1, H2.
    apply orb_true_iff in Hsign as [E|E]; apply Ascii.eqb_eq in E as ->; now split.
  - destruct (digits 0 (String c s)) as [m|] eqn:Hd; [|discriminate].
    intros _. now apply digits_plain in Hd.
Qed.

(** The slice [header[:len(header)-2]] stays in range: a line read after
    the marker was seen has at least seven bytes. *)
Lemma header_slice_in_range (s line rest : string) :
  HasPrefix s prefix = true -> cut_at LF s = Some (line, rest) ->
  7 <= String.length line.
Proof.
  intros Hpre Hcut. apply HasPrefix_inv in Hpre as [r ->].
  change (prefix ++ r) with ("PROXY " ++ r) in Hcut. cbn in Hcut.
  destruct (cut_at LF r) as [[l rs]|] eqn:Hr; [|discriminate].
  injection Hcut as <- <-.
  apply cut_at_some in Hr as (_ & l' & -> & _).
  cbn. rewrite str_length_app. cbn. lia.
Qed.

(** ** What [parseHeader] does with the fields *)

Lemma parseHeader_ok h x y p cache f0 proto src dst sport dport sip sp dip dp :
  Split " " h = [f0; proto; src; dst; sport; dport] ->
  proto = "TCP4" \/ proto = "TCP6" ->
  ParseIP src = Some sip -> Atoi sport = Some sp ->
  ParseIP dst = Some dip -> Atoi dport = Some dp ->
  parseHeader (h ++ String x (String y "")) p cache
  = (None, setSrcAddr p (mkTCPAddr sip sp),
     putInfo (TCPAddr_String IPString (mkTCPAddr sip sp))
             (mkProxyProtoInfo proto (mkTCPAddr sip sp) (mkTCPAddr dip dp)) cache).
Proof.
  intros HS Hproto H1 H2 H3 H4. unfold proxyprotocol.parseHeader.
  rewrite strip_two, HS, H1, H2, H3, H4.
  now destruct Hproto as [-> | ->].
Qed.

Lemma parseHeader_malformedSource h x y p cache :
  malformedSource ParseIP (Split " " h) ->
  exists e, parseHeader (h ++ String x (String y "")) p cache
            = (Some e, closeConn p, cache).
Proof.
  unfold malformedSource, proxyprotocol.parseHeader.
  rewrite strip_two. intros H.
  destruct (Split " " h) as [|f0 [|f1 [|f2 [|f3 [|f4 [|f5 [|f6 l]]]]]]];
    try (eexists; reflexivity).
  cbn [nth length] in H.
  destruct (String.eqb_spec f1 "TCP4") as [E4|E4];
    destruct (String.eqb_spec f1 "TCP6") as [E6|E6]; cbn [orb negb];
    try (eexists; reflexivity);
    (destruct (ParseIP f2) eqn:H2; [|eexists; reflexivity]);
    (destruct (Atoi f4) eqn:H4; [|eexists; reflexivity]);
    exfalso; destruct H as [H|[[H H']|[H|H]]]; congruence.
Qed.

Lemma parseHeader_badDest h x y p cache f0 proto src dst sport dport sip sp :
  Split " " h = [f0; proto; src; dst; sport; dport] ->
  proto = "TCP4" \/ proto = "TCP6" ->
  ParseIP src = Some sip -> Atoi sport = Some sp ->
  ParseIP dst = None \/ Atoi dport = None ->
  exists e, parseHeader (h ++ String x (String y "")) p cache
            = (Some e, closeConn (setSrcAddr p (mkTCPAddr sip sp)), cache).
Proof.
  intros HS Hproto H1 H2 Hd. unfold proxyprotocol.parseHeader.
  rewrite strip_two, HS, H1, H2.
  replace (negb (String.eqb proto "TCP4" || String.eqb proto "TCP6")) with false
    by now destruct Hproto as [-> | ->].
  destruct (ParseIP dst) eqn:H3; [|eexists; reflexivity].
  destruct (Atoi dport) eqn:H4; [|eexists; reflexivity].
  destruct Hd; discriminate.
Qed.

Lemma parseHeader_malformed h x y p cache :
  malformed ParseIP (Split " " h) ->
  exists e p', parseHeader (h ++ String x (String y "")) p cache = (Some e, p', cache)
               /\ closed (conn p') = true.
Proof.
  intros H.
  destruct (parseHeader (h ++ String x (String y "")) p cache) as [[err p'] cache'] eqn:HP.
  destruct err as [e|].
  - apply parseHeader_frame in HP as HF.
    destruct HF as (_ & _ & _ & _ & _ & _ & HF). destruct (HF e eq_refl) as [Hc ->].
    now exists e, p'.
  - exfalso. revert HP. unfold proxyprotocol.parseHeader, malformed in *.
    rewrite strip_two.
    destruct (Split " " h) as [|f0 [|f1 [|f2 [|f3 [|f4 [|f5 [|f6 l]]]]]]];
      try discriminate.
    cbn [nth length] in H.
    destruct (String.eqb_spec f1 "TCP4") as [E4|E4];
      destruct (String.eqb_spec f1 "TCP6") as [E6|E6]; cbn [orb negb];
      try discriminate;
      (destruct (ParseIP f2) eqn:H2; [|discriminate]);
      (destruct (Atoi f4) eqn:H4; [|discriminate]);
      (destruct (ParseIP f3) eqn:H3; [|discriminate]);
      (destruct (Atoi f5) eqn:H5; [|discriminate]);
      intros _; destruct H as [H|[[H H']|[H|[H|[H|H]]]]]; congruence.
Qed.

(** ** The check on a stream that begins with the marker *)

Lemma checkPrefix_line p cache h x rest :
  pending p = h ++ String x (String LF rest) ->
  HasPrefix (pending p) prefix = true ->
  contains_byte LF h = false -> x <> LF ->
  exists p1, sameConn p p1 /\ pending p1 = rest
             /\ checkPrefix p cache = parseHeader (h ++ String x (String LF "")) p1 cache.
Proof.
  intros Hs Hpre Hh Hx.
  destruct (checkPrefix_stream p cache) as (p1 & Hsame & H).
  rewrite (scanStream_match _ _ Hpre), Hs in H.
  replace (h ++ String x (String LF rest))
    with ((h ++ String x "") ++ String LF rest) in H
    by now rewrite str_app_assoc.
  rewrite cut_at_line in H.
  - destruct H as [H1 H2]. exists p1. rewrite str_app_assoc in H1. auto.
  - rewrite contains_byte_app, Hh. cbn [contains_byte orb].
    rewrite orb_false_r. now apply Ascii.eqb_neq.
Qed.

Lemma checkPrefix_noLF p cache :
  HasPrefix (pending p) prefix = true ->
  contains_byte LF (pending p) = false ->
  exists p1, sameConn p p1
             /\ checkPrefix p cache = (Some (read_error (conn p)), closeConn p1, cache).
Proof.
  intros Hpre Hno.
  destruct (checkPrefix_stream p cache) as (p1 & Hsame & H).
  rewrite (scanStream_match _ _ Hpre), (cut_at_none _ _ Hno) in H.
  exists p1. now destruct H.
Qed.

Lemma checkPrefix_noMarker p cache :
  HasPrefix (pending p) prefix = false ->
  exists err p1, sameConn p p1 /\ pending p1 = pending p
                 /\ checkPrefix p cache = (err, p1, cache).
Proof.
  intros Hpre.
  destruct (checkPrefix_stream p cache) as (p1 & Hsame & H).
  destruct (scanStream prefixLen 1 (pending p) (read_error (conn p))) eqn:Hsc.
  - destruct H. eauto.
  - destruct H as (? & ? & _). eauto.
  - apply scanStream_match_inv in Hsc. congruence.
Qed.

(** ** Calls after the check has run *)

Lemma onceCheckPrefix_done p cache :
  once p = true -> onceCheckPrefix p cache = (None, p, cache).
Proof. unfold proxyprotocol.onceCheckPrefix. now intros ->. Qed.

Lemma onceCheckPrefix_first p cache :
  once p = false ->
  onceCheckPrefix p cache
  = ((checkPrefix p cache).1.1, setOnce (checkPrefix p cache).1.2, (checkPrefix p cache).2).
Proof.
  unfold proxyprotocol.onceCheckPrefix. intros ->.
  now destruct (checkPrefix p cache) as [[err p1] cache1].
Qed.

Lemma call_done k p cache :
  once p = true -> call k p cache = ((plainCall k p).1, (plainCall k p).2, cache).
Proof.
  intros H. destruct k as [n|]; cbn [proxyprotocol.call plainCall].
  - unfold proxyprotocol.Read. rewrite onceCheckPrefix_done by assumption.
    now destruct (bufio_Read n (bufReader p) (conn p)) as [[[data err] r] c].
  - unfold proxyprotocol.RemoteAddr, reported.
    rewrite onceCheckPrefix_done by assumption.
    now destruct (srcAddr p).
Qed.

Lemma plainCall_frame k p :
  sameConn p (plainCall k p).2
  /\ delivered [(plainCall k p).1] ++ pending (plainCall k p).2 = pending p
  /\ (forall a, (plainCall k p).1 = AddrReply a -> a = reported p)
  /\ (forall data e, (plainCall k p).1 = ReadReply data (Some e) ->
                     e = read_error (conn p) /\ data = "" /\ buffered (bufReader p) = "").
Proof.
  destruct k as [n|]; cbn [plainCall].
  - destruct (bufio_Read n (bufReader p) (conn p)) as [[[data err] r] c] eqn:HR.
    apply bufio_Read_spec in HR as (Hsock & Hs & Herr & _).
    cbn [fst snd delivered]. unfold pending. cbn [setReader bufReader conn].
    rewrite str_app_nil_r.
    split; [now apply sameConn_setReader |].
    split; [assumption |].
    split; [discriminate |].
    intros data' e [= -> ->]. now apply Herr.
  - cbn [fst snd delivered]. split; [apply sameConn_refl |].
    split; [reflexivity |].
    split; [now intros a [= <-] | discriminate].
Qed.

Lemma plainRun_frame ks p :
  sameConn p (plainRun ks p).2
  /\ delivered (plainRun ks p).1 ++ pending (plainRun ks p).2 = pending p
  /\ (forall a, In (AddrReply a) (plainRun ks p).1 -> a = reported p)
  /\ (forall data e, In (ReadReply data (Some e)) (plainRun ks p).1 ->
                     e = read_error (conn p) /\ data = "").
Proof.
  revert p; induction ks as [|k ks IH]; intros p; cbn [plainRun].
  - cbn. split; [apply sameConn_refl |]. repeat split; auto; contradiction.
  - destruct (plainCall_frame k p) as (Hsame & Hdel & Haddr & Herr).
    destruct (plainCall k p) as [rep p1]. cbn [fst snd] in *.
    destruct (IH p1) as (Hsame' & Hdel' & Haddr' & Herr').
    destruct (plainRun ks p1) as [reps p2]. cbn [fst snd] in *.
    split; [eapply sameConn_trans; eauto |].
    split.
    { rewrite <- Hdel, <- Hdel'. destruct rep; cbn [delivered];
        now rewrite ?str_app_nil_r, ?str_app_assoc. }
    split.
    + intros a [->|Hin]; [now apply Haddr |].
      rewrite <- (sameConn_reported _ _ Hsame). now apply Haddr'.
    + intros data e [->|Hin]; [now destruct (Herr data e eq_refl) as (? & ? & _) |].
      destruct Hsame as (Hsock & _).
      rewrite <- (sameSocket_read_error _ _ Hsock). now apply Herr'.
Qed.

Lemma run_done ks p cache :
  once p = true -> run ks p cache = ((plainRun ks p).1, (plainRun ks p).2, cache).
Proof.
  revert p; induction ks as [|k ks IH]; intros p Hp; cbn [proxyprotocol.run plainRun].
  - reflexivity.
  - rewrite call_done by assumption.
    destruct (plainCall_frame k p) as ((_ & _ & Honce) & _).
    destruct (plainCall k p) as [rep p1]. cbn [fst snd] in *.
    rewrite IH by congruence.
    now destruct (plainRun ks p1) as [reps p2].
Qed.

(** The first call on a connection: the check runs, and either its
    error is returned or the call goes on as a call after the check. *)
Lemma call_first k p cache err p1 cache1 :
  once p = false -> checkPrefix p cache = (err, p1, cache1) ->
  (exists n e, k = CallRead n /\ err = Some e
               /\ call k p cache = (ReadReply "" (Some e), setOnce p1, cache1))
  \/ call k p cache
     = ((plainCall k (setOnce p1)).1, (plainCall k (setOnce p1)).2, cache1).
Proof.
  intros Hp Hc. destruct k as [n|]; cbn [proxyprotocol.call plainCall].
  - unfold proxyprotocol.Read. rewrite onceCheckPrefix_first, Hc by assumption.
    cbn [fst snd]. destruct err as [e|].
    + left. now exists n, e.
    + right. cbn [setOnce bufReader conn].
      now destruct (bufio_Read n (bufReader p1) (conn p1)) as [[[data err] r] c].
  - right. unfold proxyprotocol.RemoteAddr, reported.
    rewrite onceCheckPrefix_first, Hc by assumption. cbn [fst snd setOnce srcAddr conn].
    now destruct (srcAddr p1).
Qed.

(** Any sequence of calls that starts with the check. *)
Theorem run_first k ks p cache err p1 cache1 :
  once p = false -> checkPrefix p cache = (err, p1, cache1) ->
  let '(reps, pn, cachen) := run (k :: ks) p cache in
  cachen = cache1
  /\ sameConn (setOnce p1) pn
  /\ delivered reps ++ pending pn = pending p1
  /\ (forall a, In (AddrReply a) reps -> a = reported p1)
  /\ (forall data e, In (ReadReply data (Some e)) reps ->
                     data = "" /\ (err = Some e \/ e = read_error (conn p1))).
Proof.
  intros Hp Hc. cbn [proxyprotocol.run].
  destruct (call_first k p cache err p1 cache1 Hp Hc) as [(n & e & -> & -> & ->)| ->].
  - rewrite run_done by reflexivity.
    destruct (plainRun_frame ks (setOnce p1)) as (Hsame & Hdel & Haddr & Herr).
    destruct (plainRun ks (setOnce p1)) as [reps pn]. cbn [fst snd] in *.
    split; [reflexivity |].
    split; [assumption |].
    split; [assumption |].
    split.
    + intros a [H|H]; [discriminate | now apply Haddr].
    + intros data e' [[= <- <-]|H]; [auto |].
      destruct (Herr _ _ H) as [-> ->]. auto.
  - destruct (plainCall_frame k (setOnce p1)) as (Hsame & Hdel & Haddr & Herr).
    destruct (plainCall k (setOnce p1)) as [rep p2]. cbn [fst snd] in *.
    rewrite run_done by (destruct Hsame as (_ & _ & ->); reflexivity).
    destruct (plainRun_frame ks p2) as (Hsame' & Hdel' & Haddr' & Herr').
    destruct (plainRun ks p2) as [reps pn]. cbn [fst snd] in *.
    split; [reflexivity |].
    split; [eapply sameConn_trans; eauto |].
    split; [|split].
    + change (pending p1) with (pending (setOnce p1)).
      rewrite <- Hdel, <- Hdel'. destruct rep; cbn [delivered];
        now rewrite ?str_app_nil_r, ?str_app_assoc.
    + intros a [->|Hin]; [now apply Haddr |].
      change (reported p1) with (reported (setOnce p1)).
      rewrite <- (sameConn_reported _ _ Hsame). now apply Haddr'.
    + intros data e [->|Hin].
      * destruct (Herr data e eq_refl) as (-> & -> & _). auto.
      * destruct (Herr' _ _ Hin) as [-> ->]. destruct Hsame as (Hsock & _).
        rewrite (sameSocket_read_error _ _ Hsock). auto.
Qed.

(** ** The check on a line of six fields *)

Lemma plain_proto (proto : string) : proto = "TCP4" \/ proto = "TCP6" -> plain proto.
Proof. now intros [-> | ->]. Qed.

Lemma checkPrefix_six p cache proto src dst sport dport x rest :
  pending p = headerLine proto src dst sport dport ++ String x (String LF rest) ->
  x <> LF ->
  plain proto -> plain src -> plain dst -> plain sport -> plain dport ->
  exists p1, sameConn p p1 /\ pending p1 = rest
    /\ checkPrefix p cache
       = parseHeader (headerLine proto src dst sport dport ++ String x (String LF "")) p1 cache.
Proof.
  intros Hs Hx H1 H2 H3 H4 H5.
  apply checkPrefix_line; auto using header_no_LF.
  rewrite Hs. unfold headerLine. rewrite str_app_assoc. apply (HasPrefix_app prefix).
Qed.

Lemma checkPrefix_wellformed p cache proto src dst sport dport x rest sip dip sp dp :
  pending p = headerLine proto src dst sport dport ++ String x (String LF rest) ->
  x <> LF ->
  proto = "TCP4" \/ proto = "TCP6" -> plain src -> plain dst ->
  ParseIP src = Some sip -> ParseIP dst = Some dip ->
  Atoi sport = Some sp -> Atoi dport = Some dp ->
  exists p1, sameConn p p1 /\ pending p1 = rest
    /\ checkPrefix p cache
       = (None, setSrcAddr p1 (mkTCPAddr sip sp),
          putInfo (TCPAddr_String IPString (mkTCPAddr sip sp))
                  (mkProxyProtoInfo proto (mkTCPAddr sip sp) (mkTCPAddr dip dp)) cache).
Proof.
  intros Hs Hx Hproto Hsrc Hdst H1 H2 H3 H4.
  pose proof (plain_proto _ Hproto) as Hp.
  pose proof (Atoi_plain _ _ H3) as Hsp. pose proof (Atoi_plain _ _ H4) as Hdp.
  destruct (checkPrefix_six p cache _ _ _ _ _ _ _ Hs Hx Hp Hsrc Hdst Hsp Hdp)
    as (p1 & Hsame & Hrest & ->).
  exists p1. split; [assumption |]. split; [assumption |].
  eapply parseHeader_ok; eauto using header_fields.
Qed.

(** Every address reported in a sequence of calls on a new connection
    is the one the state after the check reports. *)
Lemma run_new_reported c cache calls a :
  In (AddrReply a) (run calls (NewConn c) cache).1.1 ->
  a = reported (checkPrefix (NewConn c) cache).1.2.
Proof.
  destruct calls as [|k ks]; [contradiction |].
  destruct (checkPrefix (NewConn c) cache) as [[err p1] cache1] eqn:Hc.
  pose proof (run_first k ks (NewConn c) cache err p1 cache1 eq_refl Hc) as H.
  destruct (run (k :: ks) (NewConn c) cache) as [[reps pn] cachen].
  destruct H as (_ & _ & _ & Haddr & _). apply Haddr.
Qed.

(** C1: a connection whose stream begins with a well-formed
    [PROXY TCP4 <src> <dst> <sport> <dport>] line ended by CR LF reports
    the parsed source address and source port as its remote address, in
    every [RemoteAddr] call of every sequence of [Read] and [RemoteAddr]
    calls; a connection whose stream does not begin with ["PROXY "]
    reports the address of the socket peer in every such call. *)
Theorem C1_remote_addr_transparency :
  (forall c cache src dst sport dport rest sip dip sp dp calls a,
      stream c = headerLine "TCP4" src dst sport dport ++ CRLF ++ rest ->
      plain src -> plain dst ->
      ParseIP src = Some sip -> ParseIP dst = Some dip ->
      Atoi sport = Some sp -> Atoi dport = Some dp ->
      In (AddrReply a) (run calls (NewConn c) cache).1.1 ->
      a = Some (AddrTCP (mkTCPAddr sip sp)))
  /\ (forall c cache calls a,
      HasPrefix (stream c) prefix = false ->
      In (AddrReply a) (run calls (NewConn c) cache).1.1 ->
      a = raddr c).
Proof.
  split.
  - intros c cache src dst sport dport rest sip dip sp dp calls a
      Hs Hsrc Hdst H1 H2 H3 H4 Hin.
    apply run_new_reported in Hin as ->.
    destruct (checkPrefix_wellformed (NewConn c) cache "TCP4" src dst sport dport
                CR rest sip dip sp dp) as (p1 & _ & _ & ->); auto; discriminate.
  - intros c cache calls a Hpre Hin.
    apply run_new_reported in Hin as ->.
    destruct (checkPrefix_noMarker (NewConn c) cache Hpre) as (err & p1 & Hsame & _ & ->).
    cbn [fst snd]. now rewrite (sameConn_reported _ _ Hsame).
Qed.

(** C2: on a connection that begins with ["PROXY "], when the socket
    fails before the header line ends, or when the fields of the line
    (what precedes its last two bytes, split at the spaces) are not six,
    name a protocol other than TCP4 and TCP6, hold a source or
    destination address that does not parse or a port that is not a
    number, the check closes the socket and returns an error, and a
    [Read] that runs the check returns that error with no data. *)
Theorem C2_malformed_header_closes c cache n :
  HasPrefix (stream c) prefix = true ->
  (contains_byte LF (stream c) = false
   \/ exists h x rest,
       stream c = h ++ String x (String LF rest)
       /\ contains_byte LF h = false /\ x <> LF
       /\ malformed ParseIP (Split " " h)) ->
  exists e p',
    checkPrefix (NewConn c) cache = (Some e, p', cache)
    /\ closed (conn p') = true
    /\ Read n (NewConn c) cache = ("", Some e, setOnce p', cache)
    /\ closed (conn (setOnce p')) = true.
Proof.
  intros Hpre Hbad.
  assert (exists e p', checkPrefix (NewConn c) cache = (Some e, p', cache)
                       /\ closed (conn p') = true) as (e & p' & Hc & Hcl).
  { destruct Hbad as [Hno | (h & x & rest & Hs & Hh & Hx & Hm)].
    - destruct (checkPrefix_noLF (NewConn c) cache Hpre Hno) as (p1 & _ & ->).
      now exists (read_error c), (closeConn p1).
    - destruct (checkPrefix_line (NewConn c) cache h x rest Hs Hpre Hh Hx)
        as (p1 & _ & _ & ->).
      now apply parseHeader_malformed. }
  exists e, p'. repeat split; auto.
  unfold proxyprotocol.Read. rewrite onceCheckPrefix_first, Hc by reflexivity.
  reflexivity.
Qed.

(** C3, as amended: on a connection that begins with ["PROXY "], when
    the socket fails before the header line ends, or when the fields of
    the line are not six, name an unknown protocol, or hold a source
    address or source port that does not parse, the check closes the
    socket with an error, and every [RemoteAddr] call returns the
    address of the socket peer: no address taken from the header. *)
Theorem C3_malformed_reports_peer c cache calls a :
  HasPrefix (stream c) prefix = true ->
  (contains_byte LF (stream c) = false
   \/ exists h x rest,
       stream c = h ++ String x (String LF rest)
       /\ contains_byte LF h = false /\ x <> LF
       /\ malformedSource ParseIP (Split " " h)) ->
  (exists e p', checkPrefix (NewConn c) cache = (Some e, p', cache)
                /\ closed (conn p') = true)
  /\ (In (AddrReply a) (run calls (NewConn c) cache).1.1 -> a = raddr c).
Proof.
  intros Hpre Hbad.
  assert (exists e p1, sameConn (NewConn c) p1
                       /\ checkPrefix (NewConn c) cache = (Some e, closeConn p1, cache))
    as (e & p1 & Hsame & Hc).
  { destruct Hbad as [Hno | (h & x & rest & Hs & Hh & Hx & Hm)].
    - destruct (checkPrefix_noLF (NewConn c) cache Hpre Hno) as (p1 & Hsame & ->).
      now exists (read_error c), p1.
    - destruct (checkPrefix_line (NewConn c) cache h x rest Hs Hpre Hh Hx)
        as (p1 & Hsame & _ & ->).
      destruct (parseHeader_malformedSource h x LF p1 cache Hm) as [e ->].
      now exists e, p1. }
  split.
  - now exists e, (closeConn p1).
  - intros Hin. apply run_new_reported in Hin as ->. rewrite Hc. cbn [fst snd].
    destruct Hsame as ((_ & _ & Hr) & Hsrc & _).
    unfold reported. cbn [closeConn srcAddr conn conn_Close raddr].
    now rewrite Hsrc, Hr.
Qed.

Lemma call_sets_once k p cache : once (call k p cache).1.2 = true.
Proof.
  destruct (once p) eqn:Hp.
  - rewrite call_done by assumption. cbn [fst snd].
    destruct (plainCall_frame k p) as ((_ & _ & ->) & _). assumption.
  - destruct (checkPrefix p cache) as [[err p1] cache1] eqn:Hc.
    destruct (call_first k p cache err p1 cache1 Hp Hc) as [(n & e & _ & _ & ->)| ->].
    + reflexivity.
    + cbn [fst snd].
      destruct (plainCall_frame k (setOnce p1)) as ((_ & _ & ->) & _). reflexivity.
Qed.

Lemma plainRun_addr_only ks p :
  Forall (fun k => k = CallRemoteAddr) ks -> (plainRun ks p).2 = p.
Proof.
  induction 1 as [|k ks -> _ IH]; cbn [plainRun plainCall]; [reflexivity |].
  destruct (plainRun ks p) as [reps p']. cbn [snd] in *. assumption.
Qed.

(** C4: whatever the first call on a connection is, once it has
    returned the check is done for good.  Every later call, in any
    number and order, is a call of the buffered reader or a lookup of
    the address: it does not peek, read a line or parse.  The cache,
    the stored source address, the done flag and the socket's closed
    flag stay what they were after the first call; [RemoteAddr] keeps
    returning the same address; the bytes still to hand out are those
    left after the first call less the ones that the later [Read]s
    returned; and [RemoteAddr] calls alone leave the state as it was. *)
Theorem C4_check_runs_once p cache k ks :
  let p1 := (call k p cache).1.2 in
  let cache1 := (call k p cache).2 in
  let reps := (run ks p1 cache1).1.1 in
  let pn := (run ks p1 cache1).1.2 in
  once p1 = true
  /\ run ks p1 cache1 = ((plainRun ks p1).1, (plainRun ks p1).2, cache1)
  /\ (run ks p1 cache1).2 = cache1
  /\ once pn = true
  /\ srcAddr pn = srcAddr p1
  /\ closed (conn pn) = closed (conn p1)
  /\ (forall a, In (AddrReply a) reps -> a = reported p1)
  /\ delivered reps ++ pending pn = pending p1
  /\ (Forall (fun k => k = CallRemoteAddr) ks -> pn = p1).
Proof.
  cbv zeta. pose proof (call_sets_once k p cache) as Honce.
  set (p1 := (call k p cache).1.2) in *. set (cache1 := (call k p cache).2).
  rewrite (run_done ks p1 cache1 Honce). cbn [fst snd].
  destruct (plainRun_frame ks p1) as (((_ & Hcl & _) & Hsrc & Ho) & Hdel & Haddr & _).
  repeat split; auto; try congruence.
  apply plainRun_addr_only.
Qed.

(** C5, as amended: on a connection where some byte among the first six
    differs from the marker ["PROXY "], the check returns no error and
    changes nothing but the buffering; the first [Read] returns no
    error and hands out the first bytes of the stream (at least one
    when the slice is not empty); and in every sequence of calls the
    bytes returned, followed by those still to hand out, are the whole
    stream, the cache is untouched, and the only read error is the
    socket's own, returned without data. *)
Theorem C5_no_marker_is_not_an_error c cache :
  differsFromMarker (stream c) ->
  (exists p1, checkPrefix (NewConn c) cache = (None, p1, cache)
              /\ sameConn (NewConn c) p1 /\ pending p1 = stream c)
  /\ (forall n, exists data p',
        Read n (NewConn c) cache = (data, None, p', cache)
        /\ data ++ pending p' = stream c
        /\ (0 < n -> data <> ""))
  /\ (forall calls,
        (run calls (NewConn c) cache).2 = cache
        /\ delivered (run calls (NewConn c) cache).1.1
           ++ pending (run calls (NewConn c) cache).1.2 = stream c
        /\ forall data e,
            In (ReadReply data (Some e)) (run calls (NewConn c) cache).1.1 ->
            data = "" /\ e = term c).
Proof.
  intros Hdiff.
  destruct (checkPrefix_stream (NewConn c) cache) as (p1 & Hsame & H).
  rewrite (scanStream_mismatch _ _ Hdiff) in H. destruct H as (Hc & Hpend & Hbuf).
  change (pending (NewConn c)) with (stream c) in Hpend.
  assert (closed c = false) as Hopen.
  { destruct Hdiff as (j & Hj & Hlen & _). unfold stream in Hlen.
    destruct (closed c); [simpl in Hlen; lia | reflexivity]. }
  split; [now exists p1 |]. split.
  - intros n. unfold proxyprotocol.Read.
    rewrite onceCheckPrefix_first, Hc by reflexivity. cbn [fst snd setOnce bufReader conn].
    destruct (bufio_Read n (bufReader p1) (conn p1)) as [[[data err] r] c'] eqn:HR.
    apply bufio_Read_spec in HR as (_ & Hs & Herr & Hdata).
    destruct err as [e|]; [now destruct (Herr e eq_refl) as (_ & _ & ?) |].
    exists data, (setReader (setOnce p1) r c'). split; [reflexivity |].
    split; [now rewrite <- Hpend | auto].
  - intros [|k ks]; [cbn; repeat split; auto; contradiction |].
    pose proof (run_first k ks (NewConn c) cache None p1 cache eq_refl Hc) as H.
    destruct (run (k :: ks) (NewConn c) cache) as [[reps pn] cachen].
    destruct H as (-> & _ & Hdel & _ & Herr). cbn [fst snd].
    rewrite <- Hpend. repeat split; auto.
    + now destruct (Herr _ _ H).
    + destruct (Herr _ _ H) as [_ [E | ->]]; [discriminate |].
      destruct Hsame as (Hsock & _). rewrite (sameSocket_read_error _ _ Hsock).
      unfold read_error. cbn [NewConn conn]. now rewrite Hopen.
Qed.

(** C6: on a connection whose header parses, the check stores one
    record under the string form of the parsed source address: the
    cache after the check, and after any further calls, is the cache
    before with [putInfo] applied once, to that key and to the record
    of the header's protocol token and the parsed source and
    destination addresses. *)
Theorem C6_one_record_cached c cache proto src dst sport dport rest sip dip sp dp k ks :
  stream c = headerLine proto src dst sport dport ++ CRLF ++ rest ->
  proto = "TCP4" \/ proto = "TCP6" -> plain src -> plain dst ->
  ParseIP src = Some sip -> ParseIP dst = Some dip ->
  Atoi sport = Some sp -> Atoi dport = Some dp ->
  let info := mkProxyProtoInfo proto (mkTCPAddr sip sp) (mkTCPAddr dip dp) in
  let key := TCPAddr_String IPString (mkTCPAddr sip sp) in
  (checkPrefix (NewConn c) cache).2 = putInfo key info cache
  /\ (run (k :: ks) (NewConn c) cache).2 = putInfo key info cache.
Proof.
  intros Hs Hproto Hsrc Hdst H1 H2 H3 H4.
  destruct (checkPrefix_wellformed (NewConn c) cache proto src dst sport dport
              CR rest sip dip sp dp) as (p1 & _ & _ & Hc); auto; try discriminate.
  cbv zeta. rewrite Hc. split; [reflexivity |].
  pose proof (run_first k ks (NewConn c) cache _ _ _ eq_refl Hc) as H.
  destruct (run (k :: ks) (NewConn c) cache) as [[reps pn] cachen].
  now destruct H as (-> & _).
Qed.

(** C9: when the header has six fields, a known protocol, a source
    address and a source port that parse, and a destination address or
    a destination port that does not, the check closes the socket and
    returns an error, the source address stays stored, and every
    [RemoteAddr] call returns that parsed source address. *)
Theorem C9_source_kept_on_bad_destination
    c cache proto src dst sport dport rest sip sp calls a :
  stream c = headerLine proto src dst sport dport ++ CRLF ++ rest ->
  proto = "TCP4" \/ proto = "TCP6" -> plain src -> plain dst -> plain dport ->
  ParseIP src = Some sip -> Atoi sport = Some sp ->
  ParseIP dst = None \/ Atoi dport = None ->
  (exists e p', checkPrefix (NewConn c) cache = (Some e, p', cache)
                /\ closed (conn p') = true
                /\ srcAddr p' = Some (mkTCPAddr sip sp))
  /\ (In (AddrReply a) (run calls (NewConn c) cache).1.1 ->
      a = Some (AddrTCP (mkTCPAddr sip sp))).
Proof.
  intros Hs Hproto Hsrc Hdst Hdport H1 H2 Hbad.
  pose proof (plain_proto _ Hproto) as Hp. pose proof (Atoi_plain _ _ H2) as Hsp.
  destruct (checkPrefix_six (NewConn c) cache proto src dst sport dport CR rest)
    as (p1 & _ & _ & Hc); auto; try discriminate.
  destruct (parseHeader_badDest (headerLine proto src dst sport dport) CR LF p1 cache
              "PROXY" proto src dst sport dport sip sp) as [e He];
    auto using header_fields.
  rewrite He in Hc. split.
  - now exists e, (closeConn (setSrcAddr p1 (mkTCPAddr sip sp))).
  - intros Hin. apply run_new_reported in Hin as ->. now rewrite Hc.
Qed.

(** C10: the line is cut by two bytes whatever they are: the check
    decides as it would for the same line ended by CR LF.  So a header
    ended by a bare LF loses the last byte [x] of its destination port:
    when what is left of the port, [dport], is still a number, the
    header is accepted and the record stored has that number as the
    destination port. *)
Theorem C10_last_two_bytes_dropped_unchecked :
  (forall h x y p cache,
      parseHeader (h ++ String x (String y "")) p cache
      = parseHeader (h ++ CRLF) p cache)
  /\ (forall c cache proto src dst sport dport x rest sip dip sp dp,
      stream c = headerLine proto src dst sport (dport ++ String x "")
                 ++ String LF rest ->
      x <> LF ->
      proto = "TCP4" \/ proto = "TCP6" -> plain src -> plain dst ->
      ParseIP src = Some sip -> ParseIP dst = Some dip ->
      Atoi sport = Some sp -> Atoi dport = Some dp ->
      exists p1,
        checkPrefix (NewConn c) cache
        = (None, p1,
           putInfo (TCPAddr_String IPString (mkTCPAddr sip sp))
                   (mkProxyProtoInfo proto (mkTCPAddr sip sp) (mkTCPAddr dip dp)) cache)
        /\ srcAddr p1 = Some (mkTCPAddr sip sp)
        /\ closed (conn p1) = closed c
        /\ pending p1 = rest).
Proof.
  split.
  - intros h x y p cache. unfold proxyprotocol.parseHeader, CRLF.
    now rewrite !strip_two.
  - intros c cache proto src dst sport dport x rest sip dip sp dp
      Hs Hx Hproto Hsrc Hdst H1 H2 H3 H4.
    destruct (checkPrefix_wellformed (NewConn c) cache proto src dst sport dport
                x rest sip dip sp dp) as (p1 & Hsame & Hrest & ->); auto.
    { change (pending (NewConn c)) with (stream c). rewrite Hs.
      unfold headerLine. now rewrite !str_app_assoc. }
    exists (setSrcAddr p1 (mkTCPAddr sip sp)).
    destruct Hsame as ((_ & Hcl & _) & _).
    repeat split; auto.
Qed.

(** ** More on the check and the calls *)

#[local] Abbreviation op := (op ParseIP IPString putInfo).
#[local] Abbreviation runOps := (runOps ParseIP IPString putInfo).

Lemma str_app_empty (a b : string) : a ++ b = "" -> a = "" /\ b = "".
Proof. destruct a; simpl; [now intros -> | discriminate]. Qed.

(** What the check leaves alone, in any state. *)
Lemma checkPrefix_frame p cache :
  term (conn (checkPrefix p cache).1.2) = term (conn p)
  /\ raddr (conn (checkPrefix p cache).1.2) = raddr (conn p)
  /\ once (checkPrefix p cache).1.2 = once p
  /\ ((checkPrefix p cache).1.1 = None ->
      closed (conn (checkPrefix p cache).1.2) = closed (conn p))
  /\ (closed (conn p) = true -> closed (conn (checkPrefix p cache).1.2) = true)
  /\ (forall e, (checkPrefix p cache).1.1 = Some e -> (checkPrefix p cache).2 = cache)
  /\ (HasPrefix (pending p) prefix = false ->
      (checkPrefix p cache).2 = cache
      /\ srcAddr (checkPrefix p cache).1.2 = srcAddr p
      /\ closed (conn (checkPrefix p cache).1.2) = closed (conn p)
      /\ pending (checkPrefix p cache).1.2 = pending p).
Proof.
  destruct (checkPrefix_stream p cache) as (p1 & ((Ht & Hc & Hr) & Hsrc & Ho) & H).
  destruct (scanStream prefixLen 1 (pending p) (read_error (conn p))) eqn:Hsc.
  - destruct H as [-> Hp]. cbn [fst snd]. repeat split; auto; congruence.
  - destruct H as (-> & Hp & _). cbn [fst snd]. repeat split; auto; congruence.
  - apply scanStream_match_inv in Hsc.
    destruct (cut_at LF (pending p)) as [[line rest]|].
    + destruct H as [E Hp].
      destruct (checkPrefix p cache) as [[err p'] cache'] eqn:Hck. cbn [fst snd].
      symmetry in E. apply parseHeader_frame in E as (_ & _ & Ht' & Hr' & Ho' & Hn & He).
      repeat split; try congruence.
      * intros ->. rewrite Hn by reflexivity. assumption.
      * intros Hcl. destruct err as [e|].
        -- now destruct (He e eq_refl).
        -- rewrite Hn by reflexivity. congruence.
      * intros e ->. now destruct (He e eq_refl).
    + destruct H as [-> Hp]. cbn [fst snd closeConn conn conn_Close term raddr closed once].
      repeat split; auto; try congruence; discriminate.
Qed.

(** What one call leaves alone, in any state. *)
Lemma call_frame k p cache :
  term (conn (call k p cache).1.2) = term (conn p)
  /\ raddr (conn (call k p cache).1.2) = raddr (conn p)
  /\ (closed (conn p) = true -> closed (conn (call k p cache).1.2) = true)
  /\ (once p = true ->
      srcAddr (call k p cache).1.2 = srcAddr p /\ (call k p cache).2 = cache)
  /\ (forall a, (call k p cache).1.1 = AddrReply a -> a = reported (call k p cache).1.2).
Proof.
  destruct (once p) eqn:Hp.
  - rewrite call_done by assumption. cbn [fst snd].
    destruct (plainCall_frame k p) as (((Ht & Hc & Hr) & Hsrc & Ho) & _ & Haddr & _).
    repeat split; auto; try congruence.
    intros a Ha. rewrite (Haddr a Ha). unfold reported. now rewrite Hsrc, Hr.
  - destruct (checkPrefix_frame p cache) as (Ht & Hr & _ & _ & Hcl & _).
    destruct (checkPrefix p cache) as [[err p1] cache1] eqn:Hc. cbn [fst snd] in *.
    destruct (call_first k p cache err p1 cache1 Hp Hc) as [(n & e & _ & _ & ->)| ->];
      cbn [fst snd].
    + repeat split; auto; discriminate.
    + destruct (plainCall_frame k (setOnce p1))
        as (((Ht' & Hc' & Hr') & Hsrc' & Ho') & _ & Haddr & _).
      cbn [setOnce conn] in *.
      repeat split; try congruence; try discriminate.
      * intros H. rewrite Hc'. auto.
      * intros a Ha. rewrite (Haddr a Ha). unfold reported.
        cbn [setOnce srcAddr conn]. now rewrite Hsrc', Hr'.
Qed.

(** What a sequence of operations leaves alone, in any state. *)
Lemma runOps_frame os p cache :
  term (conn (runOps os p cache).1.2) = term (conn p)
  /\ raddr (conn (runOps os p cache).1.2) = raddr (conn p)
  /\ (closed (conn p) = true -> closed (conn (runOps os p cache).1.2) = true)
  /\ (once p = true ->
      once (runOps os p cache).1.2 = true
      /\ srcAddr (runOps os p cache).1.2 = srcAddr p
      /\ (runOps os p cache).2 = cache)
  /\ (forall a, In (CallReply (AddrReply a)) (runOps os p cache).1.1 ->
                a = None -> raddr (conn p) = None).
Proof.
  revert p cache; induction os as [|o os IH]; intros p cache; cbn [connapi.runOps].
  - cbn. repeat split; auto. contradiction.
  - destruct o as [k|]; cbn [connapi.op].
    + destruct (call_frame k p cache) as (Ht & Hr & Hc & Hdone & Haddr).
      pose proof (call_sets_once k p cache) as Ho.
      destruct (call k p cache) as [[rep p1] cache1]. cbn [fst snd] in *.
      destruct (IH p1 cache1) as (Ht' & Hr' & Hc' & Hdone' & Haddr').
      destruct (runOps os p1 cache1) as [[reps pn] cachen]. cbn [fst snd] in *.
      destruct (Hdone' Ho) as (Hon & Hsn & Hcn).
      split; [congruence |]. split; [congruence |]. split; [auto |]. split.
      * intros Hp. destruct (Hdone Hp) as [Hs1 Hc1].
        split; [assumption |]. split; congruence.
      * intros a [[= ->]|Hin] Ha.
        -- pose proof (Haddr a eq_refl) as E. rewrite Ha in E. unfold reported in E.
           destruct (srcAddr p1); [discriminate | congruence].
        -- rewrite <- Hr. eauto.
    + unfold Close. cbn [fst snd].
      destruct (IH (closeConn p) cache) as (Ht' & Hr' & Hc' & Hdone' & Haddr').
      destruct (runOps os (closeConn p) cache) as [[reps pn] cachen]. cbn [fst snd] in *.
      split; [assumption |]. split; [assumption |]. split; [auto |]. split.
      * intros Hp. now destruct (Hdone' Hp) as (? & ? & ?).
      * intros a [H|Hin] Ha; [discriminate | eauto].
Qed.

Lemma scanStream_properPrefix (s : string) (e : error) :
  properPrefixOfMarker s -> scanStream prefixLen 1 s e = ScanError e.
Proof.
  intros [Hlen Hpre]. unfold prefix in Hpre.
  repeat (destruct s as [|? s]; [reflexivity |];
          cbn [HasPrefix] in Hpre; apply andb_true_iff in Hpre as [E Hpre];
          apply Ascii.eqb_eq in E; subst).
  cbn in Hlen. unfold prefixLen in Hlen. cbn in Hlen. lia.
Qed.

(** A first [RemoteAddr] call, spelled out. *)
Lemma run_first_RemoteAddr ks p cache err p1 cache1 :
  once p = false -> checkPrefix p cache = (err, p1, cache1) ->
  run (CallRemoteAddr :: ks) p cache
  = (AddrReply (reported p1) :: (plainRun ks (setOnce p1)).1,
     (plainRun ks (setOnce p1)).2, cache1).
Proof.
  intros Hp Hc. cbn [proxyprotocol.run proxyprotocol.call].
  unfold proxyprotocol.RemoteAddr. rewrite onceCheckPrefix_first, Hc by assumption.
  cbn [fst snd setOnce srcAddr conn].
  replace (match srcAddr p1 with
           | Some a => (Some (AddrTCP a), setOnce p1, cache1)
           | None => (raddr (conn p1), setOnce p1, cache1)
           end) with (reported p1, setOnce p1, cache1)
    by (unfold reported; now destruct (srcAddr p1)).
  now rewrite run_done by reflexivity.
Qed.

(** X1: on a connection whose stream begins with a well-formed header
    line, with token TCP4 or TCP6 and ended by CR LF, the check returns
    no error and leaves the socket open; in every sequence of calls each
    [RemoteAddr] returns the parsed source address, the bytes that the
    [Read]s return followed by those still to hand out are exactly what
    follows the header line, and the only read error is the socket's
    own.  No byte of the header reaches the caller, and whatever follows
    the line is data, also another header. *)
Theorem wellformed_header_stripped
    c cache proto src dst sport dport rest sip dip sp dp k ks :
  stream c = headerLine proto src dst sport dport ++ CRLF ++ rest ->
  proto = "TCP4" \/ proto = "TCP6" -> plain src -> plain dst ->
  ParseIP src = Some sip -> ParseIP dst = Some dip ->
  Atoi sport = Some sp -> Atoi dport = Some dp ->
  (checkPrefix (NewConn c) cache).1.1 = None
  /\ closed (conn (checkPrefix (NewConn c) cache).1.2) = false
  /\ pending (checkPrefix (NewConn c) cache).1.2 = rest
  /\ (forall a, In (AddrReply a) (run (k :: ks) (NewConn c) cache).1.1 ->
                a = Some (AddrTCP (mkTCPAddr sip sp)))
  /\ delivered (run (k :: ks) (NewConn c) cache).1.1
     ++ pending (run (k :: ks) (NewConn c) cache).1.2 = rest
  /\ (forall data e, In (ReadReply data (Some e)) (run (k :: ks) (NewConn c) cache).1.1 ->
                     data = "" /\ e = term c).
Proof.
  intros Hs Hproto Hsrc Hdst H1 H2 H3 H4.
  assert (closed c = false) as Hopen.
  { unfold stream in Hs. destruct (closed c); [discriminate | reflexivity]. }
  destruct (checkPrefix_wellformed (NewConn c) cache proto src dst sport dport
              CR rest sip dip sp dp) as (p1 & Hsame & Hrest & Hc); auto; try discriminate.
  pose proof (run_first k ks (NewConn c) cache _ _ _ eq_refl Hc) as H.
  rewrite Hc. cbn [fst snd].
  destruct Hsame as ((Ht & Hcl & _) & _).
  destruct (run (k :: ks) (NewConn c) cache) as [[reps pn] cachen].
  destruct H as (_ & _ & Hdel & Haddr & Herr). cbn [fst snd].
  cbn [NewConn conn] in Ht, Hcl.
  change (pending (setSrcAddr p1 (mkTCPAddr sip sp))) with (pending p1) in *.
  cbn [setSrcAddr conn] in *.
  split; [reflexivity |]. split; [congruence |]. split; [assumption |].
  split; [exact Haddr |]. split; [congruence |].
  intros data e Hin. destruct (Herr _ _ Hin) as [-> [E | ->]]; [discriminate |].
  split; [reflexivity |]. unfold read_error. now rewrite Hcl, Ht, Hopen.
Qed.

(** X2: when the stream ends or fails while it is still a beginning of
    the marker (nothing at all, or ["P"] up to ["PROXY"]), the check
    returns the socket's read error, does not close the socket and uses
    up no byte; the [Read] that runs the check returns that error without
    data, and the bytes are handed out by the calls that follow. *)
Theorem truncated_marker_returns_read_error c cache :
  properPrefixOfMarker (stream c) ->
  (checkPrefix (NewConn c) cache).1.1 = Some (read_error c)
  /\ (checkPrefix (NewConn c) cache).2 = cache
  /\ closed (conn (checkPrefix (NewConn c) cache).1.2) = closed c
  /\ srcAddr (checkPrefix (NewConn c) cache).1.2 = None
  /\ pending (checkPrefix (NewConn c) cache).1.2 = stream c
  /\ (forall n, (Read n (NewConn c) cache).1.1 = ("", Some (read_error c))
                /\ pending (Read n (NewConn c) cache).1.2 = stream c)
  /\ (forall k ks,
        delivered (run (k :: ks) (NewConn c) cache).1.1
        ++ pending (run (k :: ks) (NewConn c) cache).1.2 = stream c).
Proof.
  intros Hpp.
  destruct (checkPrefix_stream (NewConn c) cache) as (p1 & Hsame & H).
  change (pending (NewConn c)) with (stream c) in H.
  rewrite (scanStream_properPrefix _ _ Hpp) in H. destruct H as [Hc Hp].
  cbn [NewConn conn] in Hc. rewrite Hc. cbn [fst snd].
  destruct Hsame as ((_ & Hcl & _) & Hsrc & _).
  do 5 (split; [auto; congruence |]). split.
  - intros n. unfold proxyprotocol.Read.
    now rewrite onceCheckPrefix_first, Hc by reflexivity.
  - intros k ks.
    pose proof (run_first k ks (NewConn c) cache _ _ _ eq_refl Hc) as H.
    destruct (run (k :: ks) (NewConn c) cache) as [[reps pn] cachen].
    destruct H as (_ & _ & Hdel & _). cbn [fst snd]. congruence.
Qed.

(** X3: when [RemoteAddr] is the call that runs the check on a header
    line with malformed fields, the error of the check is not returned
    to anyone: every [Read] that follows either fails with the error of
    the closed socket, without data, or hands out bytes that came after
    the bad line and were buffered before the socket was closed. *)
Theorem RemoteAddr_swallows_header_error c cache h x rest ks :
  HasPrefix (stream c) prefix = true ->
  stream c = h ++ String x (String LF rest) ->
  contains_byte LF h = false -> x <> LF ->
  malformed ParseIP (Split " " h) ->
  (forall data e, In (ReadReply data (Some e))
                     (run (CallRemoteAddr :: ks) (NewConn c) cache).1.1 ->
                  data = "" /\ e = ErrClosed)
  /\ (exists tail, delivered (run (CallRemoteAddr :: ks) (NewConn c) cache).1.1 ++ tail
                   = rest)
  /\ closed (conn (run (CallRemoteAddr :: ks) (NewConn c) cache).1.2) = true.
Proof.
  intros Hpre Hs Hh Hx Hm.
  destruct (checkPrefix_line (NewConn c) cache h x rest Hs Hpre Hh Hx)
    as (p1 & _ & Hrest & Hc).
  destruct (parseHeader_malformed h x LF p1 cache Hm) as (e & p' & Hp & Hcl).
  rewrite Hp in Hc.
  apply parseHeader_frame in Hp as (Hbuf & _).
  rewrite (run_first_RemoteAddr ks (NewConn c) cache _ _ _ eq_refl Hc). cbn [fst snd].
  destruct (plainRun_frame ks (setOnce p')) as (((_ & Hcl' & _) & _) & Hdel & _ & Herr).
  assert (read_error (conn (setOnce p')) = ErrClosed) as Hre
    by (unfold read_error; cbn [setOnce conn]; now rewrite Hcl).
  split; [| split].
  - intros data e' [H|Hin]; [discriminate |].
    destruct (Herr _ _ Hin) as [-> ->]. auto.
  - cbn [delivered]. exists (pending (plainRun ks (setOnce p')).2 ++ stream (conn p1)).
    rewrite <- str_app_assoc, Hdel, <- Hrest. unfold pending at 1, stream at 1.
    cbn [setOnce bufReader conn]. now rewrite Hcl, str_app_nil_r, Hbuf.
  - rewrite Hcl'. exact Hcl.
Qed.

(** X4: a connection that is closed before the check has run never
    looks at the stream, whatever it holds: the calls that follow hand
    out no byte, every read error is the error of the closed socket,
    every [RemoteAddr] returns the address of the socket peer, no source
    address is stored and the cache stays as it was. *)
Theorem close_before_check_skips_header c cache k ks :
  let p0 := (Close (NewConn c)).2 in
  (Close (NewConn c)).1 = (if closed c then Some ErrClosed else None)
  /\ (run (k :: ks) p0 cache).2 = cache
  /\ srcAddr (run (k :: ks) p0 cache).1.2 = None
  /\ delivered (run (k :: ks) p0 cache).1.1 = ""
  /\ (forall a, In (AddrReply a) (run (k :: ks) p0 cache).1.1 -> a = raddr c)
  /\ (forall data e, In (ReadReply data (Some e)) (run (k :: ks) p0 cache).1.1 ->
                     e = ErrClosed).
Proof.
  cbv zeta. unfold Close. cbn [fst snd NewConn conn].
  set (p0 := closeConn (NewConn c)).
  destruct (checkPrefix_stream p0 cache) as (p1 & ((_ & Hcl & Hr) & Hsrc & _) & H).
  change (pending p0) with "" in H.
  rewrite (scanStream_properPrefix "" _ (conj (Nat.lt_0_succ 5) eq_refl)) in H.
  change (read_error (conn p0)) with ErrClosed in H. destruct H as [Hc Hp].
  change (srcAddr p0) with (@None (TCPAddr netIP)) in Hsrc.
  change (raddr (conn p0)) with (raddr c) in Hr.
  change (closed (conn p0)) with true in Hcl.
  pose proof (run_first k ks p0 cache _ _ _ eq_refl Hc) as H.
  destruct (run (k :: ks) p0 cache) as [[reps pn] cachen].
  destruct H as (-> & (_ & Hsrcn & _) & Hdel & Haddr & Herr). cbn [fst snd].
  rewrite Hp in Hdel. apply str_app_empty in Hdel as [Hdel _].
  cbn [setOnce srcAddr] in Hsrcn.
  split; [reflexivity |]. split; [reflexivity |].
  split; [congruence |]. split; [assumption |]. split.
  - intros a Hin. rewrite (Haddr a Hin). unfold reported. now rewrite Hsrc, Hr.
  - intros data e Hin. destruct (Herr _ _ Hin) as [_ [[= <-] | ->]]; [reflexivity |].
    unfold read_error. now rewrite Hcl.
Qed.

(** X5: no sequence of [Read], [RemoteAddr] and [Close] calls, from any
    state, changes the socket's peer address or its read error, reopens
    a closed socket or resets the done flag; and once the check is done
    none of them changes the stored source address, the address that
    [RemoteAddr] reports, or the cache. *)
Theorem operations_keep_socket_and_check os p cache :
  raddr (conn (runOps os p cache).1.2) = raddr (conn p)
  /\ term (conn (runOps os p cache).1.2) = term (conn p)
  /\ (closed (conn p) = true -> closed (conn (runOps os p cache).1.2) = true)
  /\ (once p = true ->
      once (runOps os p cache).1.2 = true
      /\ srcAddr (runOps os p cache).1.2 = srcAddr p
      /\ reported (runOps os p cache).1.2 = reported p
      /\ (runOps os p cache).2 = cache).
Proof.
  destruct (runOps_frame os p cache) as (Ht & Hr & Hc & Hdone & _).
  repeat split; auto; try (now destruct (Hdone H) as (? & ? & ?)).
  destruct (Hdone H) as (_ & Hs & _). unfold reported. now rewrite Hs, Hr.
Qed.

(** X6: on a socket that has a peer address, [RemoteAddr] never returns
    nil: not before the check, not after a header that was rejected, not
    after [Close]. *)
Theorem RemoteAddr_never_nil os p cache peer a :
  raddr (conn p) = Some peer ->
  In (CallReply (AddrReply a)) (runOps os p cache).1.1 -> a <> None.
Proof.
  intros Hpeer Hin Ha.
  destruct (runOps_frame os p cache) as (_ & _ & _ & _ & H).
  specialize (H a Hin Ha). congruence.
Qed.

(** X7: in any state, a check that returns an error stores nothing in the
    cache, a check that returns no error leaves the socket's closed flag
    as it was, and a check on bytes that do not begin with the marker
    changes neither the cache, the source address, the closed flag nor
    the bytes still to hand out; the check itself never sets the done
    flag. *)
Theorem check_rejects_without_trace p cache :
  (forall e, (checkPrefix p cache).1.1 = Some e -> (checkPrefix p cache).2 = cache)
  /\ ((checkPrefix p cache).1.1 = None ->
      closed (conn (checkPrefix p cache).1.2) = closed (conn p))
  /\ (HasPrefix (pending p) prefix = false ->
      (checkPrefix p cache).2 = cache
      /\ srcAddr (checkPrefix p cache).1.2 = srcAddr p
      /\ closed (conn (checkPrefix p cache).1.2) = closed (conn p)
      /\ pending (checkPrefix p cache).1.2 = pending p)
  /\ once (checkPrefix p cache).1.2 = once p.
Proof.
  destruct (checkPrefix_frame p cache) as (_ & _ & Ho & Hn & _ & He & Hpre). auto.
Qed.

#[local] Abbreviation Accept := (@Accept netIP).

(** X8: the error of a rejected header line names the first thing that
    is wrong, in the order in which the code looks: the number of fields
    (the error quotes the line without its last two bytes), the protocol
    token, the source address, the source port, the destination address,
    the destination port. *)
Theorem header_error_names_first_failure c cache h x rest :
  HasPrefix (stream c) prefix = true ->
  stream c = h ++ String x (String LF rest) ->
  contains_byte LF h = false -> x <> LF ->
  let err := (checkPrefix (NewConn c) cache).1.1 in
  (length (Split " " h) <> 6 -> err = Some (Errorf ("Invalid header line: " ++ h)))
  /\ (forall f0 proto src dst sport dport,
        Split " " h = [f0; proto; src; dst; sport; dport] ->
        (proto <> "TCP4" -> proto <> "TCP6" ->
         err = Some (Errorf ("Unhandled address type: " ++ proto)))
        /\ (proto = "TCP4" \/ proto = "TCP6" ->
            (ParseIP src = None -> err = Some (Errorf ("Invalid source ip: " ++ src)))
            /\ (forall ip, ParseIP src = Some ip ->
                (Atoi sport = None ->
                 err = Some (Errorf ("Invalid source port: " ++ sport)))
                /\ (forall port, Atoi sport = Some port ->
                    (ParseIP dst = None ->
                     err = Some (Errorf ("Invalid destination ip: " ++ dst)))
                    /\ (forall ip', ParseIP dst = Some ip' -> Atoi dport = None ->
                        err = Some (Errorf ("Invalid destination port: " ++ dport))))))).
Proof.
  intros Hpre Hs Hh Hx. cbv zeta.
  destruct (checkPrefix_line (NewConn c) cache h x rest Hs Hpre Hh Hx)
    as (p1 & _ & _ & ->).
  unfold proxyprotocol.parseHeader. rewrite strip_two. split.
  - intros Hlen.
    destruct (Split " " h) as [|f0 [|f1 [|f2 [|f3 [|f4 [|f5 [|f6 l]]]]]]];
      try reflexivity.
    now contradiction Hlen.
  - intros f0 proto src dst sport dport ->. split.
    + intros H4 H6. apply String.eqb_neq in H4, H6. now rewrite H4, H6.
    + intros Hproto.
      replace (negb (String.eqb proto "TCP4" || String.eqb proto "TCP6")) with false
        by now destruct Hproto as [-> | ->].
      split; [now intros -> |]. intros ip ->.
      split; [now intros -> |]. intros port ->.
      split; [now intros -> |]. now intros ip' -> ->.
Qed.

(** X9: [Accept] returns either a connection or an error, never both
    and never neither; the error is the listener's own, and the
    connection wraps the socket that the listener handed over, with the
    check still to run, no source address and nothing buffered; sockets
    come out in the listener's order.  When the stream of an accepted
    connection begins with a well-formed header line, every
    [RemoteAddr] call on it returns the parsed source address. *)
Theorem Accept_wraps_the_next_socket (l : Listener) :
  (forall c more,
      incoming (Listener_ l) = inl c :: more ->
      Accept l = (Some (NewConn c), None, mkListener (mkNetListener more (lerr (Listener_ l))))
      /\ once (NewConn c) = false /\ srcAddr (NewConn c) = None
      /\ pending (NewConn c) = stream c
      /\ (forall cache src dst sport dport rest sip dip sp dp calls a,
            stream c = headerLine "TCP4" src dst sport dport ++ CRLF ++ rest ->
            plain src -> plain dst ->
            ParseIP src = Some sip -> ParseIP dst = Some dip ->
            Atoi sport = Some sp -> Atoi dport = Some dp ->
            In (AddrReply a) (run calls (NewConn c) cache).1.1 ->
            a = Some (AddrTCP (mkTCPAddr sip sp))))
  /\ (forall e more,
      incoming (Listener_ l) = inr e :: more ->
      Accept l = (None, Some e, mkListener (mkNetListener more (lerr (Listener_ l)))))
  /\ (incoming (Listener_ l) = [] ->
      Accept l = (None, Some (lerr (Listener_ l)), mkListener (Listener_ l)))
  /\ ((Accept l).1.1 = None <-> (Accept l).1.2 <> None).
Proof.
  unfold connapi.Accept, net_Accept.
  split; [| split; [| split]].
  - intros c more ->. repeat split.
    intros cache src dst sport dport rest sip dip sp dp calls a
      Hs Hsrc Hdst H1 H2 H3 H4 Hin.
    apply run_new_reported in Hin as ->.
    destruct (checkPrefix_wellformed (NewConn c) cache "TCP4" src dst sport dport
                CR rest sip dip sp dp) as (p1 & _ & _ & ->); auto; discriminate.
  - now intros e more ->.
  - now intros ->.
  - destruct (incoming (Listener_ l)) as [|[c|e] more]; cbn; split; congruence.
Qed.

End ConnProofs.

(** ** The code run on examples *)

Section Examples.

#[local] Abbreviation checkPrefix := (checkPrefix parseIPv4 IPv4_String putInfoMap).
#[local] Abbreviation Read := (Read parseIPv4 IPv4_String putInfoMap).
#[local] Abbreviation RemoteAddr := (RemoteAddr parseIPv4 IPv4_String putInfoMap).
#[local] Abbreviation run := (run parseIPv4 IPv4_String putInfoMap).
#[local] Abbreviation call := (call parseIPv4 IPv4_String putInfoMap).

Lemma C1_witness :
  (stream proxiedSocket
   = headerLine "TCP4" "192.168.1.7" "10.0.0.1" "56324" "443" ++ CRLF ++ "GET / HTTP/1.1"
   /\ forall a,
       In (AddrReply a)
          (run [CallRead 3; CallRemoteAddr; CallRead 8; CallRemoteAddr]
               (NewConn proxiedSocket) ∅).1.1 ->
       a = Some (AddrTCP clientAddr))
  /\ (HasPrefix (stream directSocket) prefix = false
      /\ forall a,
          In (AddrReply a)
             (run [CallRemoteAddr; CallRead 8; CallRemoteAddr] (NewConn directSocket) ∅).1.1 ->
          a = Some lbAddr).
Proof.
  split; (split; [reflexivity |]); intros a Hin.
  - eapply (proj1 (C1_remote_addr_transparency parseIPv4 IPv4_String putInfoMap)
              proxiedSocket ∅ "192.168.1.7" "10.0.0.1" "56324" "443" "GET / HTTP/1.1");
      [reflexivity | split; reflexivity | split; reflexivity
      | reflexivity | reflexivity | reflexivity | reflexivity | exact Hin].
  - eapply (proj2 (C1_remote_addr_transparency parseIPv4 IPv4_String putInfoMap)
              directSocket); [reflexivity | exact Hin].
Defined.

Lemma C2_witness :
  HasPrefix (stream fiveFieldsSocket) prefix = true
  /\ malformed parseIPv4 (Split " " fiveFields)
  /\ exists e p',
      checkPrefix (NewConn fiveFieldsSocket) ∅ = (Some e, p', ∅)
      /\ closed (conn p') = true
      /\ Read 16 (NewConn fiveFieldsSocket) ∅ = ("", Some e, setOnce p', ∅)
      /\ closed (conn (setOnce p')) = true.
Proof.
  assert (malformed parseIPv4 (Split " " fiveFields)) as Hm
    by (left; vm_compute; lia).
  split; [reflexivity |]. split; [exact Hm |].
  apply C2_malformed_header_closes; [reflexivity |].
  right. exists fiveFields, CR, "GET /".
  repeat split; [discriminate | exact Hm].
Defined.

Lemma C3_counterexample :
  HasPrefix (stream fiveFieldsSocket) prefix = true
  /\ malformed parseIPv4 (Split " " fiveFields)
  /\ (exists e, (checkPrefix (NewConn fiveFieldsSocket) ∅).1.1 = Some e)
  /\ closed (conn (checkPrefix (NewConn fiveFieldsSocket) ∅).1.2) = true
  /\ (RemoteAddr (NewConn fiveFieldsSocket) ∅).1.1 = Some lbAddr
  /\ (RemoteAddr (NewConn fiveFieldsSocket) ∅).1.1 <> None.
Proof.
  split; [reflexivity |]. split; [left; vm_compute; lia |].
  split; [eexists; vm_compute; reflexivity |].
  split; [reflexivity |]. split; [reflexivity | discriminate].
Qed.

Lemma C3_witness :
  HasPrefix (stream fiveFieldsSocket) prefix = true
  /\ malformedSource parseIPv4 (Split " " fiveFields)
  /\ (exists e p', checkPrefix (NewConn fiveFieldsSocket) ∅ = (Some e, p', ∅)
                   /\ closed (conn p') = true)
  /\ (In (AddrReply (Some lbAddr))
         (run [CallRead 4; CallRemoteAddr] (NewConn fiveFieldsSocket) ∅).1.1 ->
      Some lbAddr = raddr fiveFieldsSocket).
Proof.
  assert (malformedSource parseIPv4 (Split " " fiveFields)) as Hm
    by (left; vm_compute; lia).
  split; [reflexivity |]. split; [exact Hm |].
  apply C3_malformed_reports_peer; [reflexivity |].
  right. exists fiveFields, CR, "GET /".
  repeat split; [discriminate | exact Hm].
Defined.

Lemma C4_witness :
  let p1 := (call (CallRead 3) (NewConn proxiedSocket) ∅).1.2 in
  let cache1 := (call (CallRead 3) (NewConn proxiedSocket) ∅).2 in
  let ks := [CallRemoteAddr; CallRead 2; CallRemoteAddr] in
  once p1 = true
  /\ (run ks p1 cache1).2 = cache1
  /\ srcAddr (run ks p1 cache1).1.2 = srcAddr p1
  /\ delivered (run ks p1 cache1).1.1 ++ pending (run ks p1 cache1).1.2 = pending p1.
Proof.
  cbv zeta.
  destruct (C4_check_runs_once parseIPv4 IPv4_String putInfoMap
              (NewConn proxiedSocket) ∅ (CallRead 3)
              [CallRemoteAddr; CallRead 2; CallRemoteAddr])
    as (H1 & _ & H3 & _ & H5 & _ & _ & H8 & _).
  exact (conj H1 (conj H3 (conj H5 H8))).
Defined.

Lemma C5_counterexample :
  HasPrefix (stream truncatedSocket) prefix = false
  /\ (bufio_Read 16 (mkReader "") truncatedSocket).1.1 = ("PRO", None)
  /\ (Read 16 (NewConn truncatedSocket) ∅).1.1 = ("", Some EOF)
  /\ pending (Read 16 (NewConn truncatedSocket) ∅).1.2 = "PRO".
Proof. repeat split. Qed.

Lemma C5_witness :
  differsFromMarker (stream directSocket)
  /\ (exists p1, checkPrefix (NewConn directSocket) ∅ = (None, p1, ∅)
                 /\ sameConn (NewConn directSocket) p1
                 /\ pending p1 = stream directSocket)
  /\ (exists data p',
        Read 5 (NewConn directSocket) ∅ = (data, None, p', ∅)
        /\ data ++ pending p' = stream directSocket
        /\ (0 < 5 -> data <> "")).
Proof.
  assert (differsFromMarker (stream directSocket)) as Hd.
  { exists 1. repeat split; [lia | vm_compute; lia | vm_compute; lia | discriminate]. }
  split; [exact Hd |].
  destruct (C5_no_marker_is_not_an_error parseIPv4 IPv4_String putInfoMap
              directSocket ∅ Hd) as (H1 & H2 & _).
  exact (conj H1 (H2 5)).
Defined.

Lemma C6_witness :
  stream proxiedSocket
  = headerLine "TCP4" "192.168.1.7" "10.0.0.1" "56324" "443" ++ CRLF ++ "GET / HTTP/1.1"
  /\ (checkPrefix (NewConn proxiedSocket) ∅).2
     = putInfoMap "192.168.1.7:56324"
         (mkProxyProtoInfo "TCP4" clientAddr (mkTCPAddr (10, 0, 0, 1)%Z 443%Z)) ∅
  /\ (run [CallRead 3; CallRemoteAddr] (NewConn proxiedSocket) ∅).2
     = putInfoMap "192.168.1.7:56324"
         (mkProxyProtoInfo "TCP4" clientAddr (mkTCPAddr (10, 0, 0, 1)%Z 443%Z)) ∅
  /\ (run [CallRead 3; CallRemoteAddr] (NewConn proxiedSocket) ∅).2 !! "192.168.1.7:56324"
     = Some (mkProxyProtoInfo "TCP4" clientAddr (mkTCPAddr (10, 0, 0, 1)%Z 443%Z)).
Proof.
  split; [reflexivity |].
  destruct (C6_one_record_cached parseIPv4 IPv4_String putInfoMap proxiedSocket ∅
              "TCP4" "192.168.1.7" "10.0.0.1" "56324" "443" "GET / HTTP/1.1"
              (192, 168, 1, 7)%Z (10, 0, 0, 1)%Z 56324%Z 443%Z
              (CallRead 3) [CallRemoteAddr]) as [H1 H2];
    [reflexivity | left; reflexivity | split; reflexivity | split; reflexivity
    | reflexivity | reflexivity | reflexivity | reflexivity |].
  split; [exact H1 |]. split; [exact H2 |].
  rewrite H2. apply lookup_insert_eq.
Defined.


Lemma C9_witness :
  stream badDestSocket
  = headerLine "TCP4" "192.168.1.7" "10.0.0.300" "56324" "443" ++ CRLF ++ "GET /"
  /\ parseIPv4 "10.0.0.300" = None
  /\ (exists e p', checkPrefix (NewConn badDestSocket) ∅ = (Some e, p', ∅)
                   /\ closed (conn p') = true
                   /\ srcAddr p' = Some clientAddr)
  /\ (In (AddrReply (RemoteAddr (NewConn badDestSocket) ∅).1.1)
         (run [CallRemoteAddr] (NewConn badDestSocket) ∅).1.1 ->
      (RemoteAddr (NewConn badDestSocket) ∅).1.1 = Some (AddrTCP clientAddr))
  /\ raddr badDestSocket = Some lbAddr.
Proof.
  split; [reflexivity |]. split; [reflexivity |].
  destruct (C9_source_kept_on_bad_destination parseIPv4 IPv4_String putInfoMap
              badDestSocket ∅ "TCP4" "192.168.1.7" "10.0.0.300" "56324" "443" "GET /"
              (192, 168, 1, 7)%Z 56324%Z [CallRemoteAddr]
              (RemoteAddr (NewConn badDestSocket) ∅).1.1) as [H1 H2];
    [reflexivity | left; reflexivity | split; reflexivity | split; reflexivity
    | split; reflexivity | reflexivity | reflexivity | left; reflexivity |].
  exact (conj H1 (conj H2 eq_refl)).
Defined.

Lemma C10_witness :
  stream bareLFSocket
  = headerLine "TCP4" "192.168.1.7" "10.0.0.1" "56324" ("44" ++ "3") ++ String LF "GET /"
  /\ exists p1,
      checkPrefix (NewConn bareLFSocket) ∅
      = (None, p1,
         putInfoMap "192.168.1.7:56324"
           (mkProxyProtoInfo "TCP4" clientAddr (mkTCPAddr (10, 0, 0, 1)%Z 44%Z)) ∅)
      /\ srcAddr p1 = Some clientAddr
      /\ closed (conn p1) = closed bareLFSocket
      /\ pending p1 = "GET /".
Proof.
  split; [reflexivity |].
  eapply (proj2 (C10_last_two_bytes_dropped_unchecked parseIPv4 IPv4_String putInfoMap)
            bareLFSocket ∅ "TCP4" "192.168.1.7" "10.0.0.1" "56324" "44" "3"%char "GET /");
    [reflexivity | discriminate | left; reflexivity | split; reflexivity
    | split; reflexivity | reflexivity | reflexivity | reflexivity | reflexivity].
Defined.

#[local] Abbreviation runOps := (runOps parseIPv4 IPv4_String putInfoMap).

Lemma wellformed_header_stripped_witness :
  stream proxiedSocket
  = headerLine "TCP4" "192.168.1.7" "10.0.0.1" "56324" "443" ++ CRLF ++ "GET / HTTP/1.1"
  /\ (checkPrefix (NewConn proxiedSocket) ∅).1.1 = None
  /\ delivered (run [CallRead 3; CallRemoteAddr; CallRead 64] (NewConn proxiedSocket) ∅).1.1
     ++ pending (run [CallRead 3; CallRemoteAddr; CallRead 64] (NewConn proxiedSocket) ∅).1.2
     = "GET / HTTP/1.1".
Proof.
  split; [reflexivity |].
  destruct (wellformed_header_stripped parseIPv4 IPv4_String putInfoMap proxiedSocket ∅
              "TCP4" "192.168.1.7" "10.0.0.1" "56324" "443" "GET / HTTP/1.1"
              (192, 168, 1, 7)%Z (10, 0, 0, 1)%Z 56324%Z 443%Z
              (CallRead 3) [CallRemoteAddr; CallRead 64])
    as (H1 & _ & _ & _ & H5 & _);
    [reflexivity | left; reflexivity | split; reflexivity | split; reflexivity
    | reflexivity | reflexivity | reflexivity | reflexivity |].
  exact (conj H1 H5).
Defined.

Lemma truncated_marker_returns_read_error_witness :
  properPrefixOfMarker (stream truncatedSocket)
  /\ (checkPrefix (NewConn truncatedSocket) ∅).1.1 = Some EOF
  /\ closed (conn (checkPrefix (NewConn truncatedSocket) ∅).1.2) = false
  /\ delivered (run [CallRead 8; CallRead 8] (NewConn truncatedSocket) ∅).1.1
     ++ pending (run [CallRead 8; CallRead 8] (NewConn truncatedSocket) ∅).1.2 = "PRO".
Proof.
  assert (properPrefixOfMarker (stream truncatedSocket)) as Hpp
    by (split; [vm_compute; lia | reflexivity]).
  split; [exact Hpp |].
  destruct (truncated_marker_returns_read_error parseIPv4 IPv4_String putInfoMap
              truncatedSocket ∅ Hpp) as (H1 & _ & H3 & _ & _ & _ & H7).
  exact (conj H1 (conj H3 (H7 (CallRead 8) [CallRead 8]))).
Defined.

Lemma RemoteAddr_swallows_header_error_witness :
  malformed parseIPv4 (Split " " fiveFields)
  /\ (forall data e,
        In (ReadReply data (Some e))
           (run [CallRemoteAddr; CallRead 3; CallRead 3] (NewConn fiveFieldsSocket) ∅).1.1 ->
        data = "" /\ e = ErrClosed)
  /\ delivered (run [CallRemoteAddr; CallRead 3; CallRead 3] (NewConn fiveFieldsSocket) ∅).1.1
     = "GET /".
Proof.
  assert (malformed parseIPv4 (Split " " fiveFields)) as Hm
    by (left; vm_compute; lia).
  split; [exact Hm |].
  destruct (RemoteAddr_swallows_header_error parseIPv4 IPv4_String putInfoMap
              fiveFieldsSocket ∅ fiveFields CR "GET /" [CallRead 3; CallRead 3])
    as (H1 & _ & _); [reflexivity | reflexivity | reflexivity | discriminate | exact Hm |].
  split; [exact H1 | reflexivity].
Defined.

Lemma RemoteAddr_never_nil_witness :
  raddr (conn (NewConn fiveFieldsSocket)) = Some lbAddr
  /\ In (CallReply (AddrReply (Some lbAddr)))
        (runOps [OpCall (CallRead 4); OpClose; OpCall CallRemoteAddr]
                (NewConn fiveFieldsSocket) ∅).1.1
  /\ Some lbAddr <> None.
Proof.
  assert (In (CallReply (AddrReply (Some lbAddr)))
             (runOps [OpCall (CallRead 4); OpClose; OpCall CallRemoteAddr]
                     (NewConn fiveFieldsSocket) ∅).1.1) as Hin
    by (vm_compute; auto).
  split; [reflexivity |]. split; [exact Hin |].
  exact (RemoteAddr_never_nil parseIPv4 IPv4_String putInfoMap
           [OpCall (CallRead 4); OpClose; OpCall CallRemoteAddr]
           (NewConn fiveFieldsSocket) ∅ lbAddr (Some lbAddr) eq_refl Hin).
Defined.

Lemma header_error_names_first_failure_witness :
  (checkPrefix (NewConn fiveFieldsSocket) ∅).1.1
  = Some (Errorf "Invalid header line: PROXY TCP4 192.168.1.7 10.0.0.1 56324")
  /\ (checkPrefix (NewConn badDestSocket) ∅).1.1
     = Some (Errorf "Invalid destination ip: 10.0.0.300").
Proof.
  split.
  - apply (header_error_names_first_failure parseIPv4 IPv4_String putInfoMap
             fiveFieldsSocket ∅ fiveFields CR "GET /");
      [reflexivity | reflexivity | reflexivity | discriminate | vm_compute; lia].
  - eapply (header_error_names_first_failure parseIPv4 IPv4_String putInfoMap
              badDestSocket ∅ badDestIP CR "GET /");
      [reflexivity | reflexivity | reflexivity | discriminate | reflexivity
      | left; reflexivity | reflexivity | reflexivity | reflexivity].
Defined.

Lemma Accept_wraps_the_next_socket_witness :
  (Accept exampleListener).1.1 = Some (NewConn proxiedSocket)
  /\ (Accept exampleListener).1.2 = None
  /\ (Accept (Accept exampleListener).2).1
     = (None, Some (NetError "accept: too many open files"))
  /\ (forall a,
        In (AddrReply a) (run [CallRemoteAddr] (NewConn proxiedSocket) ∅).1.1 ->
        a = Some (AddrTCP clientAddr)).
Proof.
  destruct (Accept_wraps_the_next_socket parseIPv4 IPv4_String putInfoMap exampleListener)
    as (H1 & _).
  destruct (H1 proxiedSocket _ eq_refl) as (E & _ & _ & _ & H).
  rewrite E. cbn [fst snd].
  split; [reflexivity |]. split; [reflexivity |]. split; [reflexivity |].
  intros a Hin.
  eapply (H ∅ "192.168.1.7" "10.0.0.1" "56324" "443" "GET / HTTP/1.1");
    [reflexivity | split; reflexivity | split; reflexivity
    | reflexivity | reflexivity | reflexivity | reflexivity | exact Hin].
Defined.

End Examples.

(** ** Package [backend] *)

(** C7: with the keys ["/v1/logs/"] and ["/v1/stats/"] registered,
    [getHandler] finds the logs handler for ["/v1/logs"] and
    ["/v1/logs/"], the stats handler for ["/v1/stats"], ["/v1/stats/"],
    ["/v1/stats/1234"] and ["/v1/stats/1234/"], and nothing for
    ["/v1/foo"]. *)
Theorem C7_getHandler_test_table :
  getHandler "/v1/logs" testHandlers = Some (mkMockHandler logKey)
  /\ getHandler "/v1/logs/" testHandlers = Some (mkMockHandler logKey)
  /\ getHandler "/v1/stats/" testHandlers = Some (mkMockHandler statKey)
  /\ getHandler "/v1/stats" testHandlers = Some (mkMockHandler statKey)
  /\ getHandler "/v1/stats/1234" testHandlers = Some (mkMockHandler statKey)
  /\ getHandler "/v1/stats/1234/" testHandlers = Some (mkMockHandler statKey)
  /\ getHandler "/v1/foo" testHandlers = None.
Proof. repeat split; vm_compute; reflexivity. Qed.

(** The assertions of [TestGetHandler] hold. *)
Lemma TestGetHandler_passes :
  assertHandler "/v1/logs" logKey testHandlers = true
  /\ assertHandler "/v1/logs/" logKey testHandlers = true
  /\ assertHandler "/v1/stats/" statKey testHandlers = true
  /\ assertHandler "/v1/stats" statKey testHandlers = true
  /\ assertHandler "/v1/stats/1234" statKey testHandlers = true
  /\ assertHandler "/v1/stats/1234/" statKey testHandlers = true
  /\ assertHandler "/v1/foo" statKey testHandlers = false.
Proof. repeat split; vm_compute; reflexivity. Qed.

Section BackendProofs.

Variable SignalHandlerClosed : string -> SendChan -> SendChan.

Lemma echoLoop_spec key msgs isClosed response :
  echoLoop key msgs isClosed response
  = (if isClosed then Returned else Blocked,
     (response ++ echoResponses key msgs)%list).
Proof.
  revert response; induction msgs as [|m msgs IH]; intros response;
    cbn [echoLoop].
  - unfold echoResponses. cbn. rewrite app_nil_r. now destruct isClosed.
  - unfold echoResponses in *. cbn [List.filter].
    destruct (negb (String.eqb m "")); cbn [List.map]; rewrite IH.
    + now rewrite <- app_assoc.
    + reflexivity.
Qed.

(** C8: for every sequence of bodies received, the echo handler sends,
    in the order received, one message with its own key, type [Body]
    and the body followed by ["-response"] for each body that is not
    empty, and none for an empty one; when the channel is closed it
    then calls [SignalHandlerClosed] for its key on the response
    channel and returns; while the channel is open it waits. *)
Theorem C8_echo_handler key initialMessage msgs response :
  Handle SignalHandlerClosed key initialMessage (mkRecvChan msgs true) response
  = (Returned, SignalHandlerClosed key (response ++ echoResponses key msgs)%list)
  /\ Handle SignalHandlerClosed key initialMessage (mkRecvChan msgs false) response
     = (Blocked, (response ++ echoResponses key msgs)%list).
Proof.
  unfold Handle. cbn [queued chanClosed]. now rewrite !echoLoop_spec.
Qed.

Lemma echoResponses_app key (m1 m2 : list string) :
  echoResponses key (m1 ++ m2)%list
  = (echoResponses key m1 ++ echoResponses key m2)%list.
Proof. unfold echoResponses. now rewrite List.filter_app, List.map_app. Qed.

(** X10: the echo handler works through its channel piece by piece:
    what it has sent after the bodies [m1] and then [m2] is what it
    sends when it finds [m1] followed by [m2] queued at once, whether it
    was blocked in between or not; and the initial message plays no
    part. *)
Theorem echo_is_incremental key initialMessage initialMessage' m1 m2 isClosed response :
  Handle SignalHandlerClosed key initialMessage (mkRecvChan (m1 ++ m2)%list isClosed) response
  = Handle SignalHandlerClosed key initialMessage' (mkRecvChan m2 isClosed)
      (Handle SignalHandlerClosed key initialMessage (mkRecvChan m1 false) response).2.
Proof.
  unfold Handle. cbn [queued chanClosed]. rewrite !echoLoop_spec. cbn [snd].
  now rewrite echoResponses_app, app_assoc.
Qed.


End BackendProofs.

(** The scenario of the spec: the handler of session ["a"] answers
    ["hello"] with ["hello-response"] and then signals that it is done. *)
Example echo_hello :
  Handle signalClose "a" "" (mkRecvChan ["hello"; ""] true) []
  = (Returned, [common.mkMessage "a" common.Body "hello-response";
                common.mkMessage "a" common.Close ""]).
Proof. reflexivity. Qed.
